(** * Chat relay: registry, broadcast engine and wire format

    A shallow embedding of [server.py] (connection registry, broadcast
    engine, connection supervisor, operator console) and of [client.py]
    (the receive thread and the callbacks of the window).

    Python values are modelled as follows.
    - [str] is a list of Unicode code points ([N]); [bytes] is a list of
      [Byte.byte].
    - A socket object is identified by a number; what the transport does
      with it is kept in a finite map from socket to [socket_state].
    - Every function of the server runs in a state-and-exception monad
      [M]: the state is the process-wide registry [active_clients], the
      socket store and a log of the effects performed (lock operations,
      write attempts, closes, thread starts, and of the uses of the
      registry the copy a broadcast takes and the calls of [remove]).
    - Console output ([print], [traceback.print_exc]) changes nothing
      that the functions below read back, and is left out of the state. *)

From Stdlib Require Import NArith List Bool Lia.
From Stdlib.Strings Require Import String Ascii Byte.
From stdpp Require Import base decidable option list gmap.

Local Open Scope N_scope.

(** ** Text and bytes *)

Module Text.

Definition str := list N.
Definition bytes := list byte.

(** A Python literal made of ASCII characters. *)
Definition py (s : string) : str := map N_of_ascii (list_ascii_of_string s).

Definition byte_of_N (n : N) : byte :=
  match Byte.of_N n with Some b => b | None => x00 end.

(** [b'...'] literal made of ASCII characters. *)
Definition pyb (s : string) : bytes := map byte_of_N (py s).

(** *** [bytes.decode('utf-8')] (strict error handler) *)

Definition is_cont (c : N) : bool := (0x80 <=? c) && (c <=? 0xBF).
Definition in_range (lo hi c : N) : bool := (lo <=? c) && (c <=? hi).

Definition cp2 (c0 c1 : N) : N := (c0 - 0xC0) * 0x40 + (c1 - 0x80).
Definition cp3 (c0 c1 c2 : N) : N :=
  (c0 - 0xE0) * 0x1000 + (c1 - 0x80) * 0x40 + (c2 - 0x80).
Definition cp4 (c0 c1 c2 c3 : N) : N :=
  (c0 - 0xF0) * 0x40000 + (c1 - 0x80) * 0x1000 + (c2 - 0x80) * 0x40 + (c3 - 0x80).

(** Range allowed for the second byte, given the lead byte: this is what
    rejects overlong forms, surrogates and code points above U+10FFFF. *)
Definition second_ok (c0 c1 : N) : bool :=
  if c0 =? 0xE0 then in_range 0xA0 0xBF c1
  else if c0 =? 0xED then in_range 0x80 0x9F c1
  else if c0 =? 0xF0 then in_range 0x90 0xBF c1
  else if c0 =? 0xF4 then in_range 0x80 0x8F c1
  else is_cont c1.

Fixpoint utf8_decode (bs : bytes) : option str :=
  match bs with
  | [] => Some []
  | b0 :: r0 =>
    let c0 := Byte.to_N b0 in
    if c0 <? 0x80 then cons c0 <$> utf8_decode r0
    else if in_range 0xC2 0xDF c0 then
      match r0 with
      | b1 :: r1 =>
        let c1 := Byte.to_N b1 in
        if is_cont c1 then cons (cp2 c0 c1) <$> utf8_decode r1 else None
      | _ => None
      end
    else if in_range 0xE0 0xEF c0 then
      match r0 with
      | b1 :: b2 :: r2 =>
        let c1 := Byte.to_N b1 in
        let c2 := Byte.to_N b2 in
        if second_ok c0 c1 && is_cont c2
        then cons (cp3 c0 c1 c2) <$> utf8_decode r2 else None
      | _ => None
      end
    else if in_range 0xF0 0xF4 c0 then
      match r0 with
      | b1 :: b2 :: b3 :: r3 =>
        let c1 := Byte.to_N b1 in
        let c2 := Byte.to_N b2 in
        let c3 := Byte.to_N b3 in
        if second_ok c0 c1 && is_cont c2 && is_cont c3
        then cons (cp4 c0 c1 c2 c3) <$> utf8_decode r3 else None
      | _ => None
      end
    else None
  end.

(** *** [str.encode('utf-8')] (strict error handler) *)

(** Code points that have a UTF-8 encoding: everything up to U+10FFFF
    but the surrogates. *)
Definition is_scalar (c : N) : bool :=
  (c <? 0xD800) || ((0xDFFF <? c) && (c <=? 0x10FFFF)).

Definition encode_cp (c : N) : bytes :=
  if c <? 0x80 then [byte_of_N c]
  else if c <? 0x800 then
    [byte_of_N (0xC0 + c / 0x40); byte_of_N (0x80 + c mod 0x40)]
  else if c <? 0x10000 then
    [byte_of_N (0xE0 + c / 0x1000); byte_of_N (0x80 + (c / 0x40) mod 0x40);
     byte_of_N (0x80 + c mod 0x40)]
  else
    [byte_of_N (0xF0 + c / 0x40000); byte_of_N (0x80 + (c / 0x1000) mod 0x40);
     byte_of_N (0x80 + (c / 0x40) mod 0x40); byte_of_N (0x80 + c mod 0x40)].

Fixpoint utf8_encode (s : str) : option bytes :=
  match s with
  | [] => Some []
  | c :: r =>
    if is_scalar c then app (encode_cp c) <$> utf8_encode r else None
  end.

(** *** [repr(data)] for a bytes object *)

Definition hex_digit (n : N) : N :=
  if n <? 10 then 0x30 + n else 0x61 + (n - 10).

Definition quote_of (data : bytes) : N :=
  let cs := map Byte.to_N data in
  if existsb (N.eqb 0x27) cs && negb (existsb (N.eqb 0x22) cs)
  then 0x22 else 0x27.

Definition repr_byte (quote c : N) : str :=
  if (c =? quote) || (c =? 0x5C) then [0x5C; c]
  else if c =? 0x09 then py "\t"
  else if c =? 0x0A then py "\n"
  else if c =? 0x0D then py "\r"
  else if (c <? 0x20) || (0x7F <=? c)
       then py "\x" ++ [hex_digit (c / 16); hex_digit (c mod 16)]
  else [c].

Definition bytes_repr (data : bytes) : str :=
  let q := quote_of data in
  py "b" ++ [q] ++ flat_map (fun b => repr_byte q (Byte.to_N b)) data ++ [q].

(** *** [str.strip()], [in], [str.split(sep, 1)] *)

(** The characters [str.strip()] removes when called without argument. *)
Definition isspace (c : N) : bool :=
  in_range 0x09 0x0D c || in_range 0x1C 0x20 c || (c =? 0x85) || (c =? 0xA0)
  || (c =? 0x1680) || in_range 0x2000 0x200A c || (c =? 0x2028)
  || (c =? 0x2029) || (c =? 0x202F) || (c =? 0x205F) || (c =? 0x3000).

Fixpoint lstrip (s : str) : str :=
  match s with
  | [] => []
  | c :: r => if isspace c then lstrip r else s
  end.

Fixpoint rstrip (s : str) : str :=
  match s with
  | [] => []
  | c :: r =>
    match rstrip r with
    | [] => if isspace c then [] else [c]
    | r' => c :: r'
    end
  end.

Definition strip (s : str) : str := rstrip (lstrip s).

(** The separator, the one-character string ["~"]. *)
Definition SEP : N := 0x7E.

(** ["~" in message] *)
Definition contains (sep : N) (s : str) : bool := existsb (N.eqb sep) s.

(** [message.split(sep, 1)]: the list of at most two pieces. *)
Fixpoint split1 (sep : N) (s : str) : list str :=
  match s with
  | [] => [[]]
  | c :: r =>
    if c =? sep then [[]; r]
    else match split1 sep r with
         | p :: ps => (c :: p) :: ps
         | [] => [[c]]
         end
  end.

End Text.

(** ** The server process: state, exceptions, primitive operations *)

Module Server.
Import Text.

(** A socket object, compared by identity. *)
Definition sock := nat.

(** One element of [active_clients]: the dict
    [{"username": ..., "sock": ...}]. *)
Record entry := Entry { username : str; esock : sock }.

#[global] Instance entry_eq_dec : EqDecision entry.
Proof. solve_decision. Defined.

(** What the process knows of one socket. *)
Record socket_state := SocketState {
  closed : bool;        (* [close()] was called on it *)
  broken : bool;        (* the transport refuses writes (broken pipe, reset) *)
  timeout : bool;       (* [settimeout] was given a number *)
  wire : list bytes     (* the payloads [sendall] wrote, oldest first *)
}.

(** The effects a function performs, in the order it performs them. *)
Inductive event :=
| Acquire                                   (* [clients_lock] taken *)
| Release                                   (* [clients_lock] given back *)
| Sendall (s : sock) (data : bytes) (ok : bool)
| Close (s : sock)
| Thread (s : sock) (name : str)            (* listener thread started *)
| Copy                                      (* [list(active_clients)] taken *)
| Remove (e : entry).                       (* [active_clients.remove(e)] called *)

Record server := Server {
  active_clients : list entry;
  sockets : gmap sock socket_state;
  log : list event
}.

Inductive exn :=
| OSError | TimeoutError | ValueError
| UnicodeDecodeError | UnicodeEncodeError | EOFError.

(** The [except] clauses of the source. [socket.timeout] is an [OSError],
    the two Unicode errors are [ValueError]s. *)
Definition is_Exception (e : exn) : bool := true.
Definition is_OSError (e : exn) : bool :=
  match e with OSError | TimeoutError => true | _ => false end.
Definition is_ValueError (e : exn) : bool :=
  match e with
  | ValueError | UnicodeDecodeError | UnicodeEncodeError => true
  | _ => false
  end.
Definition is_EOFError (e : exn) : bool :=
  match e with EOFError => true | _ => false end.

(** How a call ends: it returns, it raises, or it never comes back
    (a [recv] on which nothing arrives). *)
Inductive result (A : Type) :=
| Ok (a : A)
| Raise (e : exn)
| Blocked.
Arguments Ok {A} a.
Arguments Raise {A} e.
Arguments Blocked {A}.

Definition M (A : Type) : Type := server -> result A * server.

Definition ret {A} (a : A) : M A := fun st => (Ok a, st).

Definition bind {A B} (c : M A) (k : A -> M B) : M B :=
  fun st =>
    match c st with
    | (Ok a, st') => k a st'
    | (Raise e, st') => (Raise e, st')
    | (Blocked, st') => (Blocked, st')
    end.

Definition raise {A} (e : exn) : M A := fun st => (Raise e, st).

Notation "'do' x <- c ; k" := (bind c (fun x => k))
  (at level 10, x name, c at level 100, k at level 200).
Notation "c ;; k" := (bind c (fun _ => k))
  (at level 100, k at level 200, right associativity).

(** [try: c  except cls: h] *)
Definition try_except {A} (c : M A) (cls : exn -> bool) (h : M A) : M A :=
  fun st =>
    match c st with
    | (Raise e, st') => if cls e then h st' else (Raise e, st')
    | r => r
    end.

(** [try: c  finally: f] *)
Definition try_finally {A} (c : M A) (f : M unit) : M A :=
  fun st =>
    match c st with
    | (Blocked, st') => (Blocked, st')
    | (r, st') =>
      match f st' with
      | (Ok _, st'') => (r, st'')
      | (Raise e, st'') => (Raise e, st'')
      | (Blocked, st'') => (Blocked, st'')
      end
    end.

Definition emit (ev : event) : M unit :=
  fun st => (Ok tt, Server (active_clients st) (sockets st) (log st ++ [ev])).

(** [with clients_lock: c] *)
Definition with_lock {A} (c : M A) : M A :=
  emit Acquire ;; try_finally c (emit Release).

Definition get_clients : M (list entry) := fun st => (Ok (active_clients st), st).

Definition set_clients (l : list entry) : M unit :=
  fun st => (Ok tt, Server l (sockets st) (log st)).

Definition set_socket (s : sock) (ss : socket_state) : M unit :=
  fun st => (Ok tt, Server (active_clients st) (<[s := ss]> (sockets st)) (log st)).

(** A socket can be written to when it exists, is open and its transport
    is up. *)
Definition writable (st : server) (s : sock) : bool :=
  match sockets st !! s with
  | Some ss => negb (closed ss) && negb (broken ss)
  | None => false
  end.

Definition is_open (st : server) (s : sock) : bool :=
  match sockets st !! s with
  | Some ss => negb (closed ss)
  | None => false
  end.

(** [sock.sendall(data)] *)
Definition sendall (s : sock) (data : bytes) : M unit :=
  fun st =>
    match sockets st !! s with
    | Some ss =>
      if negb (closed ss) && negb (broken ss) then
        (emit (Sendall s data true) ;;
         set_socket s (SocketState (closed ss) (broken ss) (timeout ss)
                                   (wire ss ++ [data]))) st
      else (emit (Sendall s data false) ;; raise OSError) st
    | None => (emit (Sendall s data false) ;; raise OSError) st
    end.

(** [sock.close()]: closing twice is allowed. *)
Definition close (s : sock) : M unit :=
  fun st =>
    match sockets st !! s with
    | Some ss =>
      (emit (Close s) ;;
       set_socket s (SocketState true (broken ss) (timeout ss) (wire ss))) st
    | None => emit (Close s) st
    end.

(** [sock.settimeout(t)]: [t] is [true] for a number, [false] for [None]. *)
Definition settimeout (s : sock) (t : bool) : M unit :=
  fun st =>
    match sockets st !! s with
    | Some ss =>
      if closed ss then (Raise OSError, st)
      else set_socket s (SocketState (closed ss) (broken ss) t (wire ss)) st
    | None => (Raise OSError, st)
    end.

(** What the network has for one call of [recv]. *)
Inductive arrival :=
| Chunk (data : bytes)   (* bytes; none at all when the peer has closed *)
| Reset                  (* the connection fails *)
| Silence.               (* nothing arrives *)

(** [sock.recv(n)], [a] being what arrives (at most [n] bytes). *)
Definition recv (s : sock) (a : arrival) : M bytes :=
  fun st =>
    match sockets st !! s with
    | Some ss =>
      if closed ss then (Raise OSError, st)
      else match a with
           | Chunk data => (Ok data, st)
           | Reset => (Raise OSError, st)
           | Silence => if timeout ss then (Raise TimeoutError, st)
                        else (Blocked, st)
           end
    | None => (Raise OSError, st)
    end.

(** [message.encode('utf-8')] *)
Definition encode (message : str) : M bytes :=
  match utf8_encode message with
  | Some data => ret data
  | None => raise UnicodeEncodeError
  end.

(** [raw.decode('utf-8')] *)
Definition decode (raw : bytes) : M str :=
  match utf8_decode raw with
  | Some s => ret s
  | None => raise UnicodeDecodeError
  end.

(** [l.remove(x)]: drops the first element equal to [x]. *)
Fixpoint remove_first (x : entry) (l : list entry) : option (list entry) :=
  match l with
  | [] => None
  | y :: r =>
    if decide (y = x) then Some r else cons y <$> remove_first x r
  end.

(** [active_clients.remove(x)] *)
Definition list_remove (x : entry) : M unit :=
  emit (Remove x) ;;
  do l <- get_clients ;
  match remove_first x l with
  | Some l' => set_clients l'
  | None => raise ValueError
  end.

(** [active_clients.append(x)] *)
Definition list_append (x : entry) : M unit :=
  do l <- get_clients ; set_clients (l ++ [x]).

(** ** [server.py] *)

(** [send_message_to_client(sock, message)] *)
Definition send_message_to_client (s : sock) (message : str) : M bool :=
  try_except
    (do data <- encode message ;
     sendall s data ;;
     ret true)
    is_Exception
    (try_except (close s) is_Exception (ret tt) ;;
     ret false).

(** The first loop of [send_messages_to_all], over the copy
    [list(active_clients)]; it returns [to_remove]. *)
Fixpoint broadcast_pass (message : str) (snapshot to_remove : list entry)
  : M (list entry) :=
  match snapshot with
  | [] => ret to_remove
  | e :: rest =>
    do ok <- send_message_to_client (esock e) message ;
    broadcast_pass message rest (if ok then to_remove else to_remove ++ [e])
  end.

(** The second loop of [send_messages_to_all], over [to_remove]. *)
Fixpoint prune (to_remove : list entry) : M unit :=
  match to_remove with
  | [] => ret tt
  | e :: rest =>
    try_except (list_remove e) is_ValueError (ret tt) ;;
    prune rest
  end.

(** [list(active_clients)] *)
Definition copy_clients : M (list entry) := emit Copy ;; get_clients.

(** [send_messages_to_all(message)] *)
Definition send_messages_to_all (message : str) : M unit :=
  with_lock
    (do snapshot <- copy_clients ;
     do to_remove <- broadcast_pass message snapshot [] ;
     prune to_remove).

(** [for entry in active_clients: if entry["sock"] == client_sock: ...
    break] *)
Definition find_by_sock (s : sock) (l : list entry) : option entry :=
  List.find (fun e => bool_decide (esock e = s)) l.

(** The part of [remove_client] that runs under the lock: the removal
    from the registry. *)
Definition registry_remove (client_sock : sock) : M unit :=
  with_lock
    (do l <- get_clients ;
     match find_by_sock client_sock l with
     | Some found => try_except (list_remove found) is_ValueError (ret tt)
     | None => ret tt
     end).

Definition left_msg (name : str) : str :=
  py "SERVER~" ++ name ++ py " has left the chat".

Definition joined_msg (name : str) : str :=
  py "SERVER~" ++ name ++ py " joined the chat".

(** [remove_client(client_sock, username)] *)
Definition remove_client (client_sock : sock) (name : str) : M unit :=
  registry_remove client_sock ;;
  try_except (close client_sock) is_Exception (ret tt) ;;
  send_messages_to_all (left_msg name).

(** [try: message = data.decode('utf-8')  except Exception:
    message = repr(data)] *)
Definition decode_or_repr (data : bytes) : str :=
  match utf8_decode data with
  | Some s => s
  | None => bytes_repr data
  end.

(** [f"{username}~{message}"] *)
Definition final_msg (name message : str) : str := name ++ [SEP] ++ message.

(** The [while True] loop of [listen_for_messages]; [script] is what the
    successive calls of [recv] find. When the script is used up the
    thread is still waiting in [recv]. *)
Fixpoint listen_loop (client_sock : sock) (name : str) (script : list arrival)
  : M unit :=
  match script with
  | [] => fun st => (Blocked, st)
  | a :: rest =>
    do got <- try_except (do data <- recv client_sock a ; ret (Some data))
                         is_OSError (ret None) ;
    match got with
    | None => ret tt
    | Some [] => ret tt
    | Some data =>
      send_messages_to_all (final_msg name (decode_or_repr data)) ;;
      listen_loop client_sock name rest
    end
  end.

(** [listen_for_messages(client_sock, username)] *)
Definition listen_for_messages (client_sock : sock) (name : str)
    (script : list arrival) : M unit :=
  try_finally
    (try_except (listen_loop client_sock name script) is_Exception (ret tt))
    (remove_client client_sock name).

(** The registration step of [client_handler]:
    [with clients_lock: active_clients.append({...})]. *)
Definition registry_add (name : str) (client_sock : sock) : M unit :=
  with_lock (list_append (Entry name client_sock)).

(** [client_handler(client_sock, addr)]; [first] is what the one [recv]
    of the handshake finds. The listener thread it starts runs on its
    own: here it is only recorded. *)
Definition client_handler (client_sock : sock) (first : arrival) : M unit :=
  try_except
    (settimeout client_sock true ;;
     do raw <- recv client_sock first ;
     settimeout client_sock false ;;
     match raw with
     | [] => close client_sock
     | _ =>
       do text <- decode raw ;
       let name := strip text in
       match name with
       | [] => close client_sock
       | _ =>
         registry_add name client_sock ;;
         send_messages_to_all (joined_msg name) ;;
         emit (Thread client_sock name)
       end
     end)
    is_Exception
    (try_except (close client_sock) is_Exception (ret tt)).

(** One turn of the loop of [server_send_messages], [msg] being the line
    [input()] returned. *)
Definition console_line (msg : str) : M unit :=
  let txt := strip msg in
  match txt with
  | [] => ret tt
  | _ => send_messages_to_all (py "SERVER~" ++ txt)
  end.

(** The loop of [server_send_messages] over the lines typed; after the
    last one standard input is closed and [input()] raises. *)
Fixpoint console_loop (lines : list str) : M unit :=
  match lines with
  | [] => raise EOFError
  | msg :: rest => console_line msg ;; console_loop rest
  end.

(** [server_send_messages()] *)
Definition server_send_messages (lines : list str) : M unit :=
  try_except
    (try_except (console_loop lines) is_EOFError (ret tt))
    is_Exception (ret tt).

(** The loop of the [finally] block of [main] over the registry. *)
Fixpoint close_all (l : list entry) : M unit :=
  match l with
  | [] => ret tt
  | e :: rest =>
    try_except (close (esock e)) is_Exception (ret tt) ;;
    close_all rest
  end.

(** The [finally] block of [main]: every registered socket is closed and
    the registry is cleared. *)
Definition main_shutdown : M unit :=
  with_lock
    (do l <- get_clients ;
     close_all l ;;
     set_clients []).

End Server.

(** ** [client.py]: what the receive thread displays *)

Module Client.
Import Text Server.

(** The body of [if "~" in message: ... else: ...] in
    [listen_for_messages_from_server]: the line handed to [add_message],
    or the [ValueError] of the tuple assignment. *)
Definition show (message : str) : result str :=
  if contains SEP message then
    match split1 SEP message with
    | [name; content] => Ok (py "[" ++ name ++ py "] " ++ content)
    | _ => Raise ValueError
    end
  else Ok (py "[SERVER] " ++ message).

(** One turn of the receive loop on a non-empty chunk [data]. *)
Definition receive (data : bytes) : result str := show (decode_or_repr data).

End Client.

(** ** [client.py]: the callbacks of the window

    The state of the client process: the globals [client] and
    [connected], the contents of the two entry fields and of the message
    box, the five controls that the two UI updates switch, the dialogs
    shown, the client's sockets and the receiver threads started. A call
    queued with [root.after(0, ...)] is modelled as done on the spot:
    queued calls run in the order they were queued. *)

Module Gui.
Import Text Server.

(** A call to [messagebox], with its title. *)
Inductive dialog :=
| ShowInfo (title : str)
| ShowWarning (title : str)
| ShowError (title : str)
| AskYesNo (title : str).

(** The [state] option of the five controls: [true] for [tk.NORMAL],
    [false] for [tk.DISABLED]. *)
Record controls := Controls {
  username_textbox_state : bool;
  username_button_state : bool;
  message_button_state : bool;
  message_textbox_state : bool;
  disconnect_button_state : bool
}.

Record gui := Gui {
  client : option sock;
  connected : bool;
  username_textbox : str;
  message_textbox : str;
  message_box : list str;
  widgets : controls;
  dialogs : list dialog;
  net : gmap sock socket_state;
  threads : list sock;
  destroyed : bool
}.

Definition set_link (c : option sock) (b : bool) (g : gui) : gui :=
  Gui c b (username_textbox g) (message_textbox g) (message_box g) (widgets g)
      (dialogs g) (net g) (threads g) (destroyed g).

Definition set_net (m : gmap sock socket_state) (g : gui) : gui :=
  Gui (client g) (connected g) (username_textbox g) (message_textbox g)
      (message_box g) (widgets g) (dialogs g) m (threads g) (destroyed g).

Definition set_widgets (w : controls) (g : gui) : gui :=
  Gui (client g) (connected g) (username_textbox g) (message_textbox g)
      (message_box g) w (dialogs g) (net g) (threads g) (destroyed g).

Definition set_message_textbox (t : str) (g : gui) : gui :=
  Gui (client g) (connected g) (username_textbox g) t (message_box g)
      (widgets g) (dialogs g) (net g) (threads g) (destroyed g).

(** [messagebox.show...(title, ...)] *)
Definition popup (d : dialog) (g : gui) : gui :=
  Gui (client g) (connected g) (username_textbox g) (message_textbox g)
      (message_box g) (widgets g) (dialogs g ++ [d]) (net g) (threads g)
      (destroyed g).

(** [threading.Thread(target=listen_for_messages_from_server,
    args=(s,)).start()] *)
Definition start_receiver (s : sock) (g : gui) : gui :=
  Gui (client g) (connected g) (username_textbox g) (message_textbox g)
      (message_box g) (widgets g) (dialogs g) (net g) (threads g ++ [s])
      (destroyed g).

(** [root.destroy()] *)
Definition destroy (g : gui) : gui :=
  Gui (client g) (connected g) (username_textbox g) (message_textbox g)
      (message_box g) (widgets g) (dialogs g) (net g) (threads g) true.

(** [add_message(message)]: one more line in the message box. *)
Definition add_message (line : str) (g : gui) : gui :=
  Gui (client g) (connected g) (username_textbox g) (message_textbox g)
      (message_box g ++ [line]) (widgets g) (dialogs g) (net g) (threads g)
      (destroyed g).

(** [on_connected_ui_update()] *)
Definition on_connected_ui_update (g : gui) : gui :=
  set_widgets (Controls false false true true true) g.

(** [on_disconnected_ui_update()] *)
Definition on_disconnected_ui_update (g : gui) : gui :=
  set_widgets (Controls true true false false false) g.

(** [sock.sendall(data)] on the client's sockets: the store after the
    write, or nothing when the write raises. *)
Definition net_sendall (s : sock) (data : bytes) (m : gmap sock socket_state)
  : option (gmap sock socket_state) :=
  match m !! s with
  | Some ss =>
    if negb (closed ss) && negb (broken ss)
    then Some (<[s := SocketState (closed ss) (broken ss) (timeout ss)
                                  (wire ss ++ [data])]> m)
    else None
  | None => None
  end.

(** [sock.close()] on the client's sockets. *)
Definition net_close (s : sock) (m : gmap sock socket_state)
  : gmap sock socket_state :=
  match m !! s with
  | Some ss => <[s := SocketState true (broken ss) (timeout ss) (wire ss)]> m
  | None => m
  end.

(** [sock.sendall(text.encode('utf-8'))] *)
Definition send_text (s : sock) (text : str) (m : gmap sock socket_state)
  : option (gmap sock socket_state) :=
  match utf8_encode text with
  | Some data => net_sendall s data m
  | None => None
  end.

(** What [socket.socket(...)] followed by [s.connect(...)] gives. *)
Inductive dial :=
| Refused                    (* one of the two raises *)
| Established (up : bool).   (* connected; [up]: writes go through *)

(** [connect()]; [s] is the socket object the call creates and [d] what
    the network does with it. *)
Definition connect (s : sock) (d : dial) (g : gui) : gui :=
  if connected g && bool_decide (client g <> None)
  then popup (ShowInfo (py "Already connected")) g
  else
    let name := strip (username_textbox g) in
    match name with
    | [] => popup (ShowWarning (py "Missing username")) g
    | _ =>
      match d with
      | Refused => popup (ShowError (py "Connection failed")) g
      | Established up =>
        let m := <[s := SocketState false (negb up) false []]> (net g) in
        match send_text s name m with
        | None =>
          popup (ShowError (py "Send failed")) (set_net (net_close s m) g)
        | Some m' =>
          start_receiver s
            (on_connected_ui_update
               (add_message
                  (py "[SYSTEM] Connected to server as '" ++ name ++ py "'")
                  (set_link (Some s) true (set_net m' g))))
        end
      end
    end.

(** [send_message()]. [message_textbox.delete(0, tk.END)] empties the
    field unless the field is disabled. *)
Definition send_message (g : gui) : gui :=
  match connected g, client g with
  | true, Some s =>
    let message := strip (message_textbox g) in
    match message with
    | [] => g
    | _ =>
      match send_text s message (net g) with
      | Some m' =>
        set_message_textbox
          (if message_textbox_state (widgets g) then [] else message_textbox g)
          (set_net m' g)
      | None =>
        on_disconnected_ui_update
          (set_link None false
             (set_net (net_close s (net g))
                (add_message
                   (py "[SYSTEM] Failed to send message. Server may be offline.")
                   g)))
      end
    end
  | _, _ => popup (ShowWarning (py "Not connected")) g
  end.

(** [disconnect()]. [shutdown] tells the peer and changes nothing
    here. *)
Definition disconnect (g : gui) : gui :=
  on_disconnected_ui_update
    (add_message (py "[SYSTEM] Disconnected from server.")
       (set_link None false
          (set_net (match client g with
                    | Some s => net_close s (net g)
                    | None => net g
                    end) g))).

(** [on_closing()]; [answer] is what the user answers if asked. *)
Definition on_closing (answer : bool) (g : gui) : gui :=
  if connected g then
    let g' := popup (AskYesNo (py "Quit")) g in
    if answer then destroy (disconnect g') else g'
  else destroy g.

(** The [while True] loop of [listen_for_messages_from_server]; [script]
    is what the successive calls of [recv] find. *)
Fixpoint receive_loop (s : sock) (script : list arrival) (g : gui)
  : result unit * gui :=
  match script with
  | [] => (Blocked, g)
  | a :: rest =>
    match net g !! s with
    | Some ss =>
      if closed ss then (Ok tt, g)
      else
        match a with
        | Chunk [] =>
          (Ok tt, add_message (py "[SYSTEM] Server closed the connection.") g)
        | Chunk data =>
          match Client.show (decode_or_repr data) with
          | Ok line => receive_loop s rest (add_message line g)
          | Raise e => (Raise e, g)
          | Blocked => (Blocked, g)
          end
        | Reset => (Ok tt, g)
        | Silence => if timeout ss then (Ok tt, g) else (Blocked, g)
        end
    | None => (Ok tt, g)
    end
  end.

(** [listen_for_messages_from_server(sock)]: the loop, then the
    [finally] block. *)
Definition listen_for_messages_from_server (s : sock) (script : list arrival)
    (g : gui) : result unit * gui :=
  match receive_loop s script g with
  | (Blocked, g') => (Blocked, g')
  | (r, g') => (r, on_disconnected_ui_update (set_link None false g'))
  end.

(** What the client has written to socket [s]. *)
Definition sent (g : gui) (s : sock) : list bytes :=
  match net g !! s with
  | Some ss => wire ss
  | None => []
  end.

(** The window as it is when the program starts. *)
Definition start : gui :=
  Gui None false [] [] [] (Controls true true false false false) [] ∅ [] false.

(** The controls show what [connected] says. *)
Definition in_step (g : gui) : Prop :=
  widgets g = (if connected g then Controls false false true true true
               else Controls true true false false false)
  /\ (connected g = true <-> client g <> None).

(** The user types [text] in the name field, in the message field. *)
Definition type_username (text : str) (g : gui) : gui :=
  Gui (client g) (connected g) text (message_textbox g) (message_box g)
      (widgets g) (dialogs g) (net g) (threads g) (destroyed g).


End Gui.

(** ** What one broadcast does, as functions of the state it starts in *)

Module Effect.
Import Text Server.

Definition mark_closed (s : sock) (m : gmap sock socket_state)
  : gmap sock socket_state :=
  match m !! s with
  | Some ss => <[s := SocketState true (broken ss) (timeout ss) (wire ss)]> m
  | None => m
  end.

Definition push (s : sock) (data : bytes) (m : gmap sock socket_state)
  : gmap sock socket_state :=
  match m !! s with
  | Some ss =>
    <[s := SocketState (closed ss) (broken ss) (timeout ss) (wire ss ++ [data])]> m
  | None => m
  end.

Definition sendable (m : gmap sock socket_state) (s : sock) : bool :=
  match m !! s with
  | Some ss => negb (closed ss) && negb (broken ss)
  | None => false
  end.

(** Whether [send_message_to_client] returns [True] for socket [s], [od]
    being the encoded message when it has an encoding. *)
Definition reached (od : option bytes) (m : gmap sock socket_state) (s : sock)
  : bool :=
  match od with
  | Some _ => sendable m s
  | None => false
  end.

(** What [send_message_to_client] does to the socket store. *)
Definition touch (od : option bytes) (s : sock) (m : gmap sock socket_state)
  : gmap sock socket_state :=
  match od with
  | Some data => if sendable m s then push s data m else mark_closed s m
  | None => mark_closed s m
  end.

(** What [send_message_to_client] adds to the log. *)
Definition trace1 (od : option bytes) (m : gmap sock socket_state) (s : sock)
  : list event :=
  match od with
  | Some data =>
    if sendable m s then [Sendall s data true]
    else [Sendall s data false; Close s]
  | None => [Close s]
  end.

Definition pass_sockets (od : option bytes) (l : list entry)
    (m : gmap sock socket_state) : gmap sock socket_state :=
  foldl (fun m e => touch od (esock e) m) m l.

Definition pass_trace (od : option bytes) (m : gmap sock socket_state)
    (l : list entry) : list event :=
  flat_map (fun e => trace1 od m (esock e)) l.

(** The entries a pass leaves in the registry, and those it removes. *)
Definition kept (od : option bytes) (m : gmap sock socket_state)
    (l : list entry) : list entry :=
  List.filter (fun e => reached od m (esock e)) l.

Definition unreachable (od : option bytes) (m : gmap sock socket_state)
    (l : list entry) : list entry :=
  List.filter (fun e => negb (reached od m (esock e))) l.

(** [l.remove(x)] with the [ValueError] swallowed. *)
Definition drop_first (l : list entry) (x : entry) : list entry :=
  match remove_first x l with
  | Some l' => l'
  | None => l
  end.

(** How many entries of the registry hold socket [s]. *)
Definition occurrences (s : sock) (l : list entry) : nat :=
  length (List.filter (fun e => bool_decide (esock e = s)) l).

(** One socket after a pass that met it [n] times. *)
Definition socket_after (od : option bytes) (n : nat) (ss : socket_state)
  : socket_state :=
  match od with
  | Some data =>
    if negb (closed ss) && negb (broken ss)
    then SocketState (closed ss) (broken ss) (timeout ss)
                     (wire ss ++ replicate n data)
    else SocketState (closed ss || bool_decide (n <> 0%nat)) (broken ss)
                     (timeout ss) (wire ss)
  | None =>
    SocketState (closed ss || bool_decide (n <> 0%nat)) (broken ss)
                (timeout ss) (wire ss)
  end.

(** The state [send_messages_to_all message] ends in. *)
Definition broadcast_state (message : str) (st : server) : server :=
  let od := utf8_encode message in
  let l := active_clients st in
  Server (kept od (sockets st) l)
         (pass_sockets od l (sockets st))
         (log st ++ Acquire :: Copy :: pass_trace od (sockets st) l
                 ++ map Remove (unreachable od (sockets st) l) ++ [Release]).

(** The payloads written to socket [s] so far. *)
Definition received (st : server) (s : sock) : list bytes :=
  match sockets st !! s with
  | Some ss => wire ss
  | None => []
  end.

(** The events a call adds to the log. *)
Definition events_of {A} (c : M A) (st : server) : list event :=
  drop (length (log st)) (log (snd (c st))).

(** The write attempts of a trace, in order: socket, payload, outcome. *)
Definition attempts (t : list event) : list (sock * bytes * bool) :=
  flat_map (fun ev =>
              match ev with
              | Sendall s data ok => [(s, data, ok)]
              | _ => []
              end) t.

Definition is_lock_event (ev : event) : bool :=
  match ev with
  | Acquire | Release => true
  | _ => false
  end.

(** Every write attempt of the trace is made while [clients_lock] is
    free; [held] tells whether it is held when the trace starts. *)
Fixpoint writes_outside_lock (held : bool) (t : list event) : bool :=
  match t with
  | [] => true
  | Acquire :: r => writes_outside_lock true r
  | Release :: r => writes_outside_lock false r
  | Sendall _ _ _ :: r => negb held && writes_outside_lock held r
  | _ :: r => writes_outside_lock held r
  end.

(** Every write attempt of the trace is made while [clients_lock] is
    held. *)
Fixpoint writes_under_lock (held : bool) (t : list event) : bool :=
  match t with
  | [] => true
  | Acquire :: r => writes_under_lock true r
  | Release :: r => writes_under_lock false r
  | Sendall _ _ _ :: r => held && writes_under_lock held r
  | _ :: r => writes_under_lock held r
  end.

(** Every write attempt of the trace and every use it makes of the
    registry (the copy, a removal) happens while [clients_lock] is held. *)
Fixpoint all_under_lock (held : bool) (t : list event) : bool :=
  match t with
  | [] => true
  | Acquire :: r => all_under_lock true r
  | Release :: r => all_under_lock false r
  | Sendall _ _ _ :: r => held && all_under_lock held r
  | Copy :: r => held && all_under_lock held r
  | Remove _ :: r => held && all_under_lock held r
  | _ :: r => all_under_lock held r
  end.

(** A write attempt or the close that follows a failed one. *)
Definition is_io (ev : event) : bool :=
  match ev with
  | Sendall _ _ _ | Close _ => true
  | _ => false
  end.

(** What [settimeout] does to the socket store when it succeeds. *)
Definition with_timeout (s : sock) (t : bool) (m : gmap sock socket_state)
  : gmap sock socket_state :=
  match m !! s with
  | Some ss => <[s := SocketState (closed ss) (broken ss) t (wire ss)]> m
  | None => m
  end.

(** A handshake that does not yield a name: the chunk that would be the
    name never arrives, or is empty once decoded and stripped. *)
Definition no_name (first : arrival) : Prop :=
  first = Silence \/ first = Reset \/
  exists raw text,
    first = Chunk raw /\ utf8_decode raw = Some text /\ strip text = [].

(** What an aborted handshake leaves behind: the call returns, the socket
    is closed, the registry is as before, the only effect is the close (no
    write to any peer, no lock, no thread), and no socket has received
    anything. *)
Definition aborted (s : sock) (first : arrival) (st : server) : Prop :=
  fst (client_handler s first st) = Ok tt
  /\ is_open (snd (client_handler s first st)) s = false
  /\ active_clients (snd (client_handler s first st)) = active_clients st
  /\ events_of (client_handler s first) st = [Close s]
  /\ forall s', received (snd (client_handler s first st)) s' = received st s'.

(** The visible ASCII characters, space included. *)
Definition printable (c : N) : bool := in_range 0x20 0x7E c.

(** A display name as the handshake makes them: not empty, no whitespace
    at either end. *)
Definition clean_name (n : str) : bool :=
  match n with
  | [] => false
  | c :: _ => negb (isspace c) && negb (isspace (List.last n 0))
  end.

(** The registry after the removal step of [remove_client]. *)
Definition without (s : sock) (l : list entry) : list entry :=
  match find_by_sock s l with
  | Some found => drop_first l found
  | None => l
  end.

(** What the removal step of [remove_client] logs between taking and
    releasing the lock. *)
Definition removal_trace (s : sock) (l : list entry) : list event :=
  match find_by_sock s l with
  | Some found => [Remove found]
  | None => []
  end.

(** The script of a listener comes to an end of stream (an empty chunk)
    or to a failure, with no silence before it. *)
Fixpoint ends (script : list arrival) : bool :=
  match script with
  | [] => false
  | Chunk [] :: _ => true
  | Chunk _ :: rest => ends rest
  | Reset :: _ => true
  | Silence :: _ => false
  end.

(** A console line with nothing but whitespace. *)
Definition blank (msg : str) : bool :=
  match strip msg with
  | [] => true
  | _ => false
  end.

(** How many times a trace takes the lock. *)
Definition acquisitions (t : list event) : nat :=
  length (List.filter (fun ev => match ev with Acquire => true | _ => false end) t).

(** *** Sample states *)

Definition idle : socket_state := SocketState false false false [].
Definition dead : socket_state := SocketState false true false [].

Definition alice : entry := Entry (py "alice") 1%nat.
Definition bob : entry := Entry (py "bob") 2%nat.
Definition carol : entry := Entry (py "carol") 3%nat.

(** Three peers, all connections up. *)
Definition lobby : server :=
  Server [alice; bob; carol]
         (list_to_map [(1%nat, idle); (2%nat, idle); (3%nat, idle)]) [].

(** Three peers, bob's transport broken. *)
Definition lobby_bob_down : server :=
  Server [alice; bob; carol]
         (list_to_map [(1%nat, idle); (2%nat, dead); (3%nat, idle)]) [].

(** An accepted connection (socket 4) next to the three peers. *)
Definition lobby_and_guest : server :=
  Server [alice; bob; carol]
         (list_to_map [(1%nat, idle); (2%nat, idle); (3%nat, idle); (4%nat, idle)])
         [].

Lemma writable_sendable st s : writable st s = sendable (sockets st) s.
Proof. reflexivity. Qed.

Lemma sendall_ok s data st :
  sendable (sockets st) s = true ->
  sendall s data st =
  (Ok tt, Server (active_clients st) (push s data (sockets st))
                 (log st ++ [Sendall s data true])).
Proof.
  unfold sendable, sendall, push. destruct (sockets st !! s) as [ss|]; [|done].
  intros ->. reflexivity.
Qed.

Lemma sendall_fail s data st :
  sendable (sockets st) s = false ->
  sendall s data st =
  (Raise OSError, Server (active_clients st) (sockets st)
                         (log st ++ [Sendall s data false])).
Proof.
  unfold sendable, sendall. destruct (sockets st !! s) as [ss|]; [|done].
  intros ->. reflexivity.
Qed.

Lemma close_spec s st :
  close s st =
  (Ok tt, Server (active_clients st) (mark_closed s (sockets st))
                 (log st ++ [Close s])).
Proof.
  unfold close, mark_closed. destruct (sockets st !! s); reflexivity.
Qed.

Lemma send_message_to_client_spec s message st :
  send_message_to_client s message st =
  (Ok (reached (utf8_encode message) (sockets st) s),
   Server (active_clients st)
          (touch (utf8_encode message) s (sockets st))
          (log st ++ trace1 (utf8_encode message) (sockets st) s)).
Proof.
  unfold send_message_to_client, try_except, bind, encode, reached, touch, trace1.
  destruct (utf8_encode message) as [data|]; simpl.
  - destruct (sendable (sockets st) s) eqn:E.
    + rewrite (sendall_ok _ _ _ E). reflexivity.
    + rewrite (sendall_fail _ _ _ E). simpl. rewrite close_spec. simpl.
      rewrite <- app_assoc. reflexivity.
  - rewrite close_spec. reflexivity.
Qed.

Lemma sendable_mark_closed s m s' :
  sendable m s' = false \/ s <> s' ->
  sendable (mark_closed s m) s' = sendable m s'.
Proof.
  unfold mark_closed, sendable. intros H.
  destruct (m !! s) as [ss|] eqn:E; [|done].
  destruct (decide (s = s')) as [->|Hne].
  - rewrite lookup_insert_eq. destruct H as [H|H]; [|done].
    rewrite E in *. simpl. symmetry. exact H.
  - rewrite lookup_insert_ne by done. reflexivity.
Qed.

Lemma sendable_push s data m s' : sendable (push s data m) s' = sendable m s'.
Proof.
  unfold push, sendable. destruct (m !! s) as [ss|] eqn:E; [|done].
  destruct (decide (s = s')) as [->|Hne].
  - rewrite lookup_insert_eq, E. reflexivity.
  - rewrite lookup_insert_ne by done. reflexivity.
Qed.

Lemma sendable_touch data s m s' :
  sendable (touch (Some data) s m) s' = sendable m s'.
Proof.
  unfold touch. destruct (sendable m s) eqn:E.
  - apply sendable_push.
  - apply sendable_mark_closed. destruct (decide (s = s')) as [<-|]; auto.
Qed.

Lemma reached_touch od s m s' : reached od (touch od s m) s' = reached od m s'.
Proof. destruct od; [apply sendable_touch | reflexivity]. Qed.

Lemma trace1_touch od s m s' : trace1 od (touch od s m) s' = trace1 od m s'.
Proof.
  destruct od as [data|]; [|reflexivity].
  unfold trace1. rewrite sendable_touch. reflexivity.
Qed.

Lemma broadcast_pass_spec message l : forall acc st,
  broadcast_pass message l acc st =
  (Ok (acc ++ unreachable (utf8_encode message) (sockets st) l),
   Server (active_clients st)
          (pass_sockets (utf8_encode message) l (sockets st))
          (log st ++ pass_trace (utf8_encode message) (sockets st) l)).
Proof.
  induction l as [|e l IH]; intros acc st.
  - simpl. unfold ret, unreachable, pass_trace. simpl.
    rewrite !app_nil_r. destruct st; reflexivity.
  - simpl. unfold bind. rewrite send_message_to_client_spec.
    rewrite IH. simpl. f_equal.
    + f_equal. unfold unreachable. simpl.
      set (od := utf8_encode message).
      assert (Hf : List.filter (fun e0 => negb (reached od (touch od (esock e) (sockets st)) (esock e0))) l
                   = List.filter (fun e0 => negb (reached od (sockets st) (esock e0))) l).
      { apply List.filter_ext. intros a. rewrite reached_touch. reflexivity. }
      rewrite Hf. destruct (reached od (sockets st) (esock e)); simpl.
      * reflexivity.
      * rewrite <- app_assoc. reflexivity.
    + f_equal. rewrite <- app_assoc. f_equal. f_equal.
      unfold pass_trace. apply List.flat_map_ext. intros a.
      apply trace1_touch.
Qed.

Lemma list_remove_spec x st :
  try_except (list_remove x) is_ValueError (ret tt) st =
  (Ok tt, Server (drop_first (active_clients st) x) (sockets st)
                 (log st ++ [Remove x])).
Proof.
  unfold try_except, list_remove, bind, get_clients, drop_first, emit.
  cbn [active_clients sockets log].
  destruct (remove_first x (active_clients st)); reflexivity.
Qed.

Lemma prune_spec rs : forall st,
  prune rs st =
  (Ok tt, Server (foldl drop_first (active_clients st) rs) (sockets st)
                 (log st ++ map Remove rs)).
Proof.
  induction rs as [|x rs IH]; intros st; simpl.
  - rewrite app_nil_r. destruct st; reflexivity.
  - unfold bind. rewrite list_remove_spec, IH. cbn [active_clients sockets log].
    rewrite <- app_assoc. reflexivity.
Qed.

Lemma drop_first_head a l x :
  a <> x -> drop_first (a :: l) x = a :: drop_first l x.
Proof.
  intros Hne. unfold drop_first. simpl.
  destruct (decide (a = x)); [done|].
  destruct (remove_first x l); reflexivity.
Qed.

Lemma drop_first_same a l : drop_first (a :: l) a = l.
Proof. unfold drop_first. simpl. destruct (decide (a = a)); done. Qed.

Lemma foldl_drop_first_skip (f : entry -> bool) a rs : forall l,
  f a = false -> Forall (fun x => f x = true) rs ->
  foldl drop_first (a :: l) rs = a :: foldl drop_first l rs.
Proof.
  induction rs as [|x rs IH]; intros l Ha Hrs; simpl; [reflexivity|].
  inversion Hrs as [|? ? Hx Hrs']; subst.
  rewrite drop_first_head by congruence.
  apply IH; assumption.
Qed.

Lemma foldl_drop_first_filter (f : entry -> bool) l :
  foldl drop_first l (List.filter f l) = List.filter (fun x => negb (f x)) l.
Proof.
  induction l as [|a l IH]; simpl; [reflexivity|].
  destruct (f a) eqn:Ha; simpl.
  - rewrite drop_first_same. exact IH.
  - rewrite (foldl_drop_first_skip f) by
      (try assumption; apply Forall_forall; intros x Hx;
       apply list_elem_of_In, List.filter_In in Hx; tauto).
    rewrite IH. reflexivity.
Qed.

Lemma prune_unreachable od m l :
  foldl drop_first l (unreachable od m l) = kept od m l.
Proof.
  unfold unreachable, kept. rewrite foldl_drop_first_filter.
  apply List.filter_ext. intros a. apply negb_involutive.
Qed.

(** [send_messages_to_all] always returns, and ends in
    [broadcast_state]. *)
Lemma send_messages_to_all_spec message st :
  send_messages_to_all message st = (Ok tt, broadcast_state message st).
Proof.
  unfold send_messages_to_all, with_lock, copy_clients, bind, try_finally,
    get_clients, emit.
  simpl. rewrite broadcast_pass_spec. simpl. rewrite prune_spec. simpl.
  unfold broadcast_state. rewrite prune_unreachable.
  rewrite <- !app_assoc. reflexivity.
Qed.

Lemma socket_after_0 od ss : socket_after od 0 ss = ss.
Proof.
  unfold socket_after. destruct ss as [c b t w]; simpl.
  destruct od; [destruct (negb c && negb b)|]; simpl;
    rewrite ?app_nil_r, ?orb_false_r; reflexivity.
Qed.

Lemma socket_after_S od n ss :
  socket_after od n (socket_after od 1 ss) = socket_after od (S n) ss.
Proof.
  unfold socket_after. destruct ss as [c b t w]; simpl.
  destruct od as [data|]; simpl.
  - destruct c, b; simpl; try reflexivity.
    rewrite <- app_assoc. reflexivity.
  - destruct c; reflexivity.
Qed.

Lemma touch_lookup od s0 m s :
  touch od s0 m !! s =
  (if decide (s0 = s) then socket_after od 1 else id) <$> (m !! s).
Proof.
  destruct (decide (s0 = s)) as [->|Hne].
  - destruct (m !! s) as [ss|] eqn:E; simpl.
    + unfold touch, socket_after, sendable, push, mark_closed.
      destruct od as [data|]; rewrite ?E.
      * destruct (negb (closed ss) && negb (broken ss)) eqn:Hw;
          rewrite ?E, lookup_insert_eq, ?orb_true_r; reflexivity.
      * rewrite lookup_insert_eq, orb_true_r. reflexivity.
    + unfold touch, sendable, push, mark_closed.
      destruct od; rewrite ?E; simpl; rewrite ?E; reflexivity.
  - assert (H : touch od s0 m !! s = m !! s).
    { unfold touch, push, mark_closed.
      destruct od; [destruct (sendable m s0)|]; destruct (m !! s0);
        rewrite ?lookup_insert_ne by done; reflexivity. }
    rewrite H. destruct (m !! s); reflexivity.
Qed.

Lemma occurrences_cons e l s :
  occurrences s (e :: l) =
  if decide (esock e = s) then S (occurrences s l) else occurrences s l.
Proof.
  unfold occurrences. simpl. destruct (decide (esock e = s)) as [H|H].
  - rewrite bool_decide_eq_true_2 by done. reflexivity.
  - rewrite bool_decide_eq_false_2 by done. reflexivity.
Qed.

(** Each socket after a pass over [l]. *)
Lemma pass_sockets_lookup od l : forall m s,
  pass_sockets od l m !! s = socket_after od (occurrences s l) <$> (m !! s).
Proof.
  induction l as [|e l IH]; intros m s.
  - simpl. destruct (m !! s) as [ss|]; simpl; [|reflexivity].
    rewrite socket_after_0. reflexivity.
  - unfold pass_sockets in *. simpl. rewrite IH, touch_lookup, occurrences_cons.
    destruct (decide (esock e = s)); destruct (m !! s) as [ss|]; simpl;
      try reflexivity.
    rewrite socket_after_S. reflexivity.
Qed.

Lemma events_of_spec {A} (c : M A) st r st' t :
  c st = (r, st') -> log st' = log st ++ t -> events_of c st = t.
Proof.
  intros Hc Hl. unfold events_of. rewrite Hc. simpl. rewrite Hl.
  apply drop_app_length.
Qed.

Lemma events_of_broadcast message st :
  events_of (send_messages_to_all message) st =
  Acquire :: Copy
    :: pass_trace (utf8_encode message) (sockets st) (active_clients st)
    ++ map Remove (unreachable (utf8_encode message) (sockets st)
                               (active_clients st))
    ++ [Release].
Proof.
  eapply events_of_spec; [apply send_messages_to_all_spec | reflexivity].
Qed.

Lemma attempts_app t1 t2 : attempts (t1 ++ t2) = attempts t1 ++ attempts t2.
Proof. unfold attempts. apply flat_map_app. Qed.

Lemma attempts_pass_trace data m l :
  attempts (pass_trace (Some data) m l) =
  map (fun e => (esock e, data, sendable m (esock e))) l.
Proof.
  induction l as [|e l IH]; [reflexivity|].
  change (pass_trace (Some data) m (e :: l))
    with (trace1 (Some data) m (esock e) ++ pass_trace (Some data) m l).
  rewrite attempts_app, IH. unfold trace1. simpl.
  destruct (sendable m (esock e)); reflexivity.
Qed.

Lemma pass_trace_no_lock od m l :
  forallb (fun ev => negb (is_lock_event ev)) (pass_trace od m l) = true.
Proof.
  induction l as [|e l IH]; [reflexivity|].
  change (pass_trace od m (e :: l))
    with (trace1 od m (esock e) ++ pass_trace od m l).
  rewrite forallb_app, IH, andb_true_r. unfold trace1.
  destruct od; [destruct (sendable m (esock e))|]; reflexivity.
Qed.

Lemma writes_under_lock_body body :
  forallb (fun ev => negb (is_lock_event ev)) body = true ->
  forall rest, writes_under_lock true (body ++ rest) = writes_under_lock true rest.
Proof.
  induction body as [|ev body IH]; intros Hb rest; [reflexivity|].
  simpl in Hb. apply andb_true_iff in Hb as [Hev Hb].
  destruct ev; simpl in *; try discriminate; auto.
Qed.

Lemma received_broadcast message st s :
  received (broadcast_state message st) s =
  match utf8_encode message with
  | Some data =>
    if writable st s
    then received st s ++ replicate (occurrences s (active_clients st)) data
    else received st s
  | None => received st s
  end.
Proof.
  unfold received, broadcast_state, writable. simpl.
  rewrite pass_sockets_lookup.
  destruct (sockets st !! s) as [ss|]; simpl.
  - unfold socket_after. destruct (utf8_encode message); [|reflexivity].
    destruct (negb (closed ss) && negb (broken ss)); reflexivity.
  - destruct (utf8_encode message); reflexivity.
Qed.

Lemma occurrences_In e l : In e l -> occurrences (esock e) l <> 0%nat.
Proof.
  induction l as [|a l IH]; [intros []|]. intros [->|H].
  - rewrite occurrences_cons. destruct (decide (esock e = esock e)); done.
  - rewrite occurrences_cons. destruct (decide (esock a = esock e)); auto.
Qed.

Lemma occurrences_notin s l : ~ In s (map esock l) -> occurrences s l = 0%nat.
Proof.
  induction l as [|a l IH]; [reflexivity|]. simpl. intros H.
  rewrite occurrences_cons. destruct (decide (esock a = s)); [tauto|].
  apply IH. tauto.
Qed.

Lemma occurrences_NoDup e l :
  List.NoDup (map esock l) -> In e l -> occurrences (esock e) l = 1%nat.
Proof.
  induction l as [|a l IH]; [intros _ []|]. simpl.
  intros Hnd Hin. inversion Hnd as [|? ? Hna Hnd']; subst.
  rewrite occurrences_cons. destruct Hin as [->|Hin].
  - destruct (decide (esock e = esock e)); [|done].
    rewrite occurrences_notin by assumption. reflexivity.
  - destruct (decide (esock a = esock e)) as [Heq|Hne]; [|auto].
    exfalso. apply Hna. rewrite Heq. apply in_map. assumption.
Qed.

(** A registered socket that the pass could not reach is closed
    afterwards. *)
Lemma closed_after_broadcast message st e :
  In e (active_clients st) ->
  reached (utf8_encode message) (sockets st) (esock e) = false ->
  is_open (broadcast_state message st) (esock e) = false.
Proof.
  intros Hin Hr. unfold is_open, broadcast_state. simpl.
  rewrite pass_sockets_lookup.
  destruct (sockets st !! esock e) as [ss|] eqn:E; simpl; [|reflexivity].
  assert (Hn := occurrences_In e _ Hin).
  unfold socket_after, reached, sendable in *. rewrite E in Hr.
  destruct (utf8_encode message).
  - rewrite Hr. simpl. rewrite bool_decide_eq_true_2 by done.
    rewrite orb_true_r. reflexivity.
  - simpl. rewrite bool_decide_eq_true_2 by done.
    rewrite orb_true_r. reflexivity.
Qed.

Lemma occurrences_app s l1 l2 :
  occurrences s (l1 ++ l2) = (occurrences s l1 + occurrences s l2)%nat.
Proof.
  unfold occurrences. rewrite List.filter_app, length_app. reflexivity.
Qed.

(** *** The handshake *)

Lemma with_timeout_lookup s t m s' :
  with_timeout s t m !! s' =
  (if decide (s = s')
   then fun ss => SocketState (closed ss) (broken ss) t (wire ss)
   else id) <$> (m !! s').
Proof.
  unfold with_timeout. destruct (decide (s = s')) as [->|Hne].
  - destruct (m !! s') as [ss|] eqn:E; [|rewrite E; reflexivity].
    rewrite lookup_insert_eq. reflexivity.
  - destruct (m !! s) as [ss|];
      rewrite ?lookup_insert_ne by done; destruct (m !! s'); reflexivity.
Qed.

Lemma sendable_with_timeout s t m s' :
  sendable (with_timeout s t m) s' = sendable m s'.
Proof.
  unfold sendable. rewrite with_timeout_lookup.
  destruct (decide (s = s')); destruct (m !! s'); reflexivity.
Qed.

Lemma wire_with_timeout s t m s' :
  wire <$> (with_timeout s t m !! s') = wire <$> (m !! s').
Proof.
  rewrite with_timeout_lookup.
  destruct (decide (s = s')); destruct (m !! s'); reflexivity.
Qed.

Lemma settimeout_ok s t st :
  is_open st s = true ->
  settimeout s t st =
  (Ok tt, Server (active_clients st) (with_timeout s t (sockets st)) (log st)).
Proof.
  unfold is_open, settimeout, with_timeout, set_socket.
  destruct (sockets st !! s) as [ss|]; [|done].
  destruct (closed ss); [done|]. reflexivity.
Qed.

Lemma settimeout_fail s t st :
  is_open st s = false -> settimeout s t st = (Raise OSError, st).
Proof.
  unfold is_open, settimeout.
  destruct (sockets st !! s) as [ss|]; [|done].
  destruct (closed ss); [reflexivity|done].
Qed.

Lemma is_open_with_timeout s t st :
  is_open (Server (active_clients st) (with_timeout s t (sockets st)) (log st)) s
  = is_open st s.
Proof.
  unfold is_open. simpl. rewrite with_timeout_lookup.
  destruct (decide (s = s)); [|done]. destruct (sockets st !! s); reflexivity.
Qed.

Lemma recv_open s a st :
  is_open st s = true ->
  recv s a st =
  match a with
  | Chunk data => (Ok data, st)
  | Reset => (Raise OSError, st)
  | Silence =>
    match timeout <$> (sockets st !! s) with
    | Some true => (Raise TimeoutError, st)
    | _ => (Blocked, st)
    end
  end.
Proof.
  unfold is_open, recv. destruct (sockets st !! s) as [ss|]; [|done].
  destruct (closed ss); [done|]. intros _.
  destruct a; reflexivity.
Qed.

Lemma is_open_mark_closed s m l t :
  is_open (Server l (mark_closed s m) t) s = false.
Proof.
  unfold is_open, mark_closed. simpl.
  destruct (m !! s) as [ss|] eqn:E; [|rewrite E; reflexivity].
  rewrite lookup_insert_eq. reflexivity.
Qed.

Lemma wire_mark_closed s m s' :
  wire <$> (mark_closed s m !! s') = wire <$> (m !! s').
Proof.
  unfold mark_closed. destruct (m !! s) as [ss|] eqn:E; [|reflexivity].
  destruct (decide (s = s')) as [<-|Hne].
  - rewrite lookup_insert_eq, E. reflexivity.
  - rewrite lookup_insert_ne by done. reflexivity.
Qed.

(** Such a handshake ends with the socket closed and nothing else done:
    the state it ends in is the initial one but for socket [s]. *)
Lemma client_handler_abort s first st :
  no_name first \/ (exists raw, first = Chunk raw /\ utf8_decode raw = None) ->
  exists m',
    client_handler s first st =
    (Ok tt, Server (active_clients st) (mark_closed s m') (log st ++ [Close s]))
    /\ forall s', wire <$> (m' !! s') = wire <$> (sockets st !! s').
Proof.
  intros Hf. unfold client_handler, try_except, bind.
  destruct (is_open st s) eqn:Ho.
  2:{ rewrite settimeout_fail by assumption. simpl. rewrite close_spec.
      exists (sockets st). split; reflexivity. }
  rewrite settimeout_ok by assumption.
  set (st1 := Server _ (with_timeout s true (sockets st)) _).
  assert (Ho1 : is_open st1 s = true)
    by (subst st1; rewrite is_open_with_timeout; exact Ho).
  rewrite (recv_open _ _ _ Ho1).
  assert (Ht : timeout <$> (sockets st1 !! s) = Some true).
  { subst st1. simpl. rewrite with_timeout_lookup.
    destruct (decide (s = s)); [|done]. unfold is_open in Ho.
    destruct (sockets st !! s); [reflexivity|done]. }
  set (st2 := Server (active_clients st)
                     (with_timeout s false (with_timeout s true (sockets st)))
                     (log st)).
  assert (Hst2 : settimeout s false st1 = (Ok tt, st2)).
  { rewrite settimeout_ok by assumption. reflexivity. }
  assert (Hfin : forall st', st' = st1 \/ st' = st2 ->
     exists m', (Ok tt, Server (active_clients st') (mark_closed s (sockets st'))
                               (log st' ++ [Close s])) =
                (Ok tt, Server (active_clients st) (mark_closed s m')
                               (log st ++ [Close s]))
     /\ forall s', wire <$> (m' !! s') = wire <$> (sockets st !! s')).
  { intros st' [->| ->]; eexists; (split; [reflexivity|]); intros s'; simpl;
      rewrite !wire_with_timeout; reflexivity. }
  destruct Hf as [[->|[->|(raw & text & -> & Hd & Hs)]]|(raw & -> & Hd)].
  - rewrite Ht. simpl. rewrite close_spec. apply Hfin. auto.
  - simpl. rewrite close_spec. apply Hfin. auto.
  - rewrite Hst2. destruct raw as [|b raw].
    + rewrite close_spec. apply Hfin. auto.
    + unfold decode. rewrite Hd. unfold ret. rewrite Hs.
      rewrite close_spec. apply Hfin. auto.
  - rewrite Hst2. destruct raw as [|b raw]; [discriminate Hd|].
    unfold decode. rewrite Hd. unfold raise. simpl.
    rewrite close_spec. apply Hfin. auto.
Qed.

(** *** Decoded text can be encoded again *)

Lemma is_scalar_intro c :
  c < 0xD800 \/ (0xDFFF < c /\ c <= 0x10FFFF) -> is_scalar c = true.
Proof.
  intros [H|[H1 H2]]; unfold is_scalar.
  - apply orb_true_iff. left. apply N.ltb_lt. exact H.
  - apply orb_true_iff. right. apply andb_true_iff.
    split; [apply N.ltb_lt | apply N.leb_le]; assumption.
Qed.

Ltac to_prop :=
  repeat match goal with
  | H : _ && _ = true |- _ => apply andb_true_iff in H as [? ?]
  | H : (_ <=? _) = true |- _ => apply N.leb_le in H
  | H : (_ <? _) = true |- _ => apply N.ltb_lt in H
  | H : (_ <? _) = false |- _ => apply N.ltb_ge in H
  | H : (_ =? _) = true |- _ => apply N.eqb_eq in H
  | H : (_ =? _) = false |- _ => apply N.eqb_neq in H
  end.

Lemma cp2_scalar c0 c1 :
  in_range 0xC2 0xDF c0 = true -> is_cont c1 = true ->
  is_scalar (cp2 c0 c1) = true.
Proof.
  unfold in_range, is_cont, cp2. intros H0 H1. to_prop.
  apply is_scalar_intro. lia.
Qed.

Lemma cp3_scalar c0 c1 c2 :
  in_range 0xE0 0xEF c0 = true -> second_ok c0 c1 = true ->
  is_cont c2 = true -> is_scalar (cp3 c0 c1 c2) = true.
Proof.
  unfold second_ok, in_range, is_cont, cp3. intros H0 H1 H2.
  destruct (c0 =? 0xE0) eqn:E0; [|destruct (c0 =? 0xED) eqn:E1;
    [|destruct (c0 =? 0xF0) eqn:E2; [|destruct (c0 =? 0xF4) eqn:E3]]];
    to_prop; apply is_scalar_intro; lia.
Qed.

Lemma cp4_scalar c0 c1 c2 c3 :
  in_range 0xF0 0xF4 c0 = true -> second_ok c0 c1 = true ->
  is_cont c2 = true -> is_cont c3 = true ->
  is_scalar (cp4 c0 c1 c2 c3) = true.
Proof.
  unfold second_ok, in_range, is_cont, cp4. intros H0 H1 H2 H3.
  destruct (c0 =? 0xE0) eqn:E0; [|destruct (c0 =? 0xED) eqn:E1;
    [|destruct (c0 =? 0xF0) eqn:E2; [|destruct (c0 =? 0xF4) eqn:E3]]];
    to_prop; apply is_scalar_intro; lia.
Qed.

Lemma utf8_decode_cons b0 r0 :
  utf8_decode (b0 :: r0) =
  let c0 := Byte.to_N b0 in
  if c0 <? 0x80 then cons c0 <$> utf8_decode r0
  else if in_range 0xC2 0xDF c0 then
    match r0 with
    | b1 :: r1 =>
      if is_cont (Byte.to_N b1)
      then cons (cp2 c0 (Byte.to_N b1)) <$> utf8_decode r1 else None
    | _ => None
    end
  else if in_range 0xE0 0xEF c0 then
    match r0 with
    | b1 :: b2 :: r2 =>
      if second_ok c0 (Byte.to_N b1) && is_cont (Byte.to_N b2)
      then cons (cp3 c0 (Byte.to_N b1) (Byte.to_N b2)) <$> utf8_decode r2
      else None
    | _ => None
    end
  else if in_range 0xF0 0xF4 c0 then
    match r0 with
    | b1 :: b2 :: b3 :: r3 =>
      if second_ok c0 (Byte.to_N b1) && is_cont (Byte.to_N b2)
         && is_cont (Byte.to_N b3)
      then cons (cp4 c0 (Byte.to_N b1) (Byte.to_N b2) (Byte.to_N b3))
             <$> utf8_decode r3
      else None
    | _ => None
    end
  else None.
Proof. reflexivity. Qed.

Lemma utf8_decode_scalar_bounded n : forall bs text,
  (length bs <= n)%nat -> utf8_decode bs = Some text ->
  forallb is_scalar text = true.
Proof.
  induction n as [|n IH]; intros bs text Hlen Hd.
  - destruct bs; [|simpl in Hlen; lia]. injection Hd as <-. reflexivity.
  - destruct bs as [|b0 r0]; [injection Hd as <-; reflexivity|].
    rewrite utf8_decode_cons in Hd. simpl in Hlen. cbv zeta in Hd.
    destruct (Byte.to_N b0 <? 0x80) eqn:E1.
    { apply fmap_Some in Hd as (t & Ht & ->). simpl.
      rewrite (IH r0 t) by (assumption || lia).
      rewrite is_scalar_intro; [reflexivity|]. to_prop. lia. }
    destruct (in_range 0xC2 0xDF (Byte.to_N b0)) eqn:E2.
    { destruct r0 as [|b1 r1]; [discriminate|].
      destruct (is_cont (Byte.to_N b1)) eqn:C1; [|discriminate].
      apply fmap_Some in Hd as (t & Ht & ->). simpl in *.
      rewrite (IH r1 t) by (assumption || lia).
      rewrite cp2_scalar by assumption. reflexivity. }
    destruct (in_range 0xE0 0xEF (Byte.to_N b0)) eqn:E3.
    { destruct r0 as [|b1 [|b2 r2]]; try discriminate.
      destruct (second_ok _ _ && is_cont _) eqn:C; [|discriminate].
      apply andb_true_iff in C as [C1 C2].
      apply fmap_Some in Hd as (t & Ht & ->). simpl in *.
      rewrite (IH r2 t) by (assumption || lia).
      rewrite cp3_scalar by assumption. reflexivity. }
    destruct (in_range 0xF0 0xF4 (Byte.to_N b0)) eqn:E4; [|discriminate].
    destruct r0 as [|b1 [|b2 [|b3 r3]]]; try discriminate.
    destruct (second_ok _ _ && is_cont _ && is_cont _) eqn:C; [|discriminate].
    apply andb_true_iff in C as [C C3]. apply andb_true_iff in C as [C1 C2].
    apply fmap_Some in Hd as (t & Ht & ->). simpl in *.
    rewrite (IH r3 t) by (assumption || lia).
    rewrite cp4_scalar by assumption. reflexivity.
Qed.

Lemma utf8_decode_scalar bs text :
  utf8_decode bs = Some text -> forallb is_scalar text = true.
Proof. apply (utf8_decode_scalar_bounded (length bs)). lia. Qed.

Lemma utf8_encode_scalar text :
  forallb is_scalar text = true -> exists data, utf8_encode text = Some data.
Proof.
  induction text as [|c r IH]; simpl; intros H.
  - exists []. reflexivity.
  - apply andb_true_iff in H as [Hc Hr]. rewrite Hc.
    destruct (IH Hr) as [d ->]. eexists. reflexivity.
Qed.

Lemma lstrip_forallb (P : N -> bool) text :
  forallb P text = true -> forallb P (lstrip text) = true.
Proof.
  induction text as [|c r IH]; [reflexivity|]. intros H. simpl.
  destruct (isspace c); [|exact H].
  apply IH. simpl in H. apply andb_true_iff in H. tauto.
Qed.

Lemma rstrip_forallb (P : N -> bool) text :
  forallb P text = true -> forallb P (rstrip text) = true.
Proof.
  induction text as [|c r IH]; [reflexivity|]. intros H. simpl in *.
  apply andb_true_iff in H as [Hc Hr]. specialize (IH Hr).
  destruct (rstrip r) as [|c' r'].
  - destruct (isspace c); simpl; [reflexivity|]. rewrite Hc. reflexivity.
  - simpl in *. rewrite Hc. exact IH.
Qed.

Lemma strip_forallb (P : N -> bool) text :
  forallb P text = true -> forallb P (strip text) = true.
Proof. intros H. apply rstrip_forallb, lstrip_forallb, H. Qed.

(** The join announcement for a name taken from decoded text always has
    an encoding. *)
Lemma joined_msg_encodes raw text :
  utf8_decode raw = Some text ->
  exists data, utf8_encode (joined_msg (strip text)) = Some data.
Proof.
  intros Hd. apply utf8_encode_scalar. unfold joined_msg.
  rewrite !forallb_app. rewrite (strip_forallb _ _ (utf8_decode_scalar _ _ Hd)).
  reflexivity.
Qed.

(** A handshake that yields a name registers the peer, announces it and
    starts its listener. *)
Lemma client_handler_ok s raw text st :
  is_open st s = true -> utf8_decode raw = Some text -> strip text <> [] ->
  client_handler s (Chunk raw) st =
  (Ok tt,
   let joined :=
     broadcast_state (joined_msg (strip text))
       (Server (active_clients st ++ [Entry (strip text) s])
               (with_timeout s false (with_timeout s true (sockets st)))
               (log st ++ [Acquire; Release])) in
   Server (active_clients joined) (sockets joined)
          (log joined ++ [Thread s (strip text)])).
Proof.
  intros Ho Hd Hn. unfold client_handler, try_except, bind.
  rewrite settimeout_ok by assumption.
  set (st1 := Server _ (with_timeout s true (sockets st)) _).
  assert (Ho1 : is_open st1 s = true)
    by (subst st1; rewrite is_open_with_timeout; exact Ho).
  rewrite (recv_open _ _ _ Ho1), settimeout_ok by assumption.
  destruct raw as [|b raw].
  { injection Hd as <-. exfalso. apply Hn. reflexivity. }
  unfold decode. rewrite Hd. unfold ret.
  destruct (strip text) as [|c name] eqn:Hs; [done|].
  unfold registry_add, with_lock, bind, try_finally, list_append, get_clients,
    set_clients, emit. simpl.
  rewrite send_messages_to_all_spec. simpl.
  rewrite <- !app_assoc. reflexivity.
Qed.

End Effect.

(** ** Properties of the relay *)

Import Text Server Client Effect.

(** *** Broadcast fan-out *)

(** One turn of a listener whose socket is open and which reads a
    non-empty chunk is one broadcast of the tagged message. *)
Lemma listen_turn s name data st :
  is_open st s = true -> data <> [] ->
  listen_loop s name [Chunk data] st =
  (Blocked, broadcast_state (final_msg name (decode_or_repr data)) st).
Proof.
  intros Ho Hd. unfold listen_loop, try_except, bind.
  rewrite (recv_open _ _ _ Ho). unfold ret.
  destruct data as [|b data]; [done|].
  rewrite send_messages_to_all_spec. reflexivity.
Qed.

(** C1, as the code has it: when alice (socket 1) sends ["hello"] while
    alice, bob and carol are registered, the payload ["alice~hello"]
    reaches bob and carol, and it reaches alice too. *)
Lemma C1_sender_is_echoed :
  received (snd (listen_loop 1%nat (py "alice") [Chunk (pyb "hello")] lobby)) 2%nat
    = [pyb "alice~hello"]
  /\ received (snd (listen_loop 1%nat (py "alice") [Chunk (pyb "hello")] lobby)) 3%nat
    = [pyb "alice~hello"]
  /\ received (snd (listen_loop 1%nat (py "alice") [Chunk (pyb "hello")] lobby)) 1%nat
    = [pyb "alice~hello"].
Proof. repeat split; vm_compute; reflexivity. Qed.

(** C1 (amended): when a peer sends a message, the payload
    [name~message] is written to every registered peer whose connection
    can be written to, the sender being one of them: once for each entry
    of the registry that holds the peer's socket. *)
Theorem C1_broadcast_reaches_all st s name data payload e :
  is_open st s = true -> data <> [] ->
  utf8_encode (final_msg name (decode_or_repr data)) = Some payload ->
  In e (active_clients st) -> writable st (esock e) = true ->
  received (snd (listen_loop s name [Chunk data] st)) (esock e) =
    received st (esock e)
    ++ replicate (occurrences (esock e) (active_clients st)) payload
  /\ occurrences (esock e) (active_clients st) <> 0%nat.
Proof.
  intros Ho Hd He Hin Hw. rewrite listen_turn by assumption. simpl.
  rewrite received_broadcast, He, Hw. split; [reflexivity|].
  apply occurrences_In, Hin.
Qed.

Lemma C1_broadcast_reaches_all_witness :
  received (snd (listen_loop 1%nat (py "alice") [Chunk (pyb "hello")] lobby))
           (esock alice) =
    received lobby (esock alice)
    ++ replicate (occurrences (esock alice) (active_clients lobby))
                 (pyb "alice~hello")
  /\ occurrences (esock alice) (active_clients lobby) <> 0%nat.
Proof.
  apply (C1_broadcast_reaches_all lobby 1%nat (py "alice") (pyb "hello")
           (pyb "alice~hello") alice).
  - reflexivity.
  - discriminate.
  - vm_compute. reflexivity.
  - simpl. left. reflexivity.
  - reflexivity.
Defined.

(** *** The lock during a broadcast *)

(** C2, as the code has it: in a broadcast to the three peers the writes
    are not made while the lock is free. *)
Lemma C2_writes_not_outside_lock :
  writes_outside_lock false
    (events_of (send_messages_to_all (py "alice~hello")) lobby) = false.
Proof. vm_compute. reflexivity. Qed.

Lemma attempts_pass_trace_None m l : attempts (pass_trace None m l) = [].
Proof. induction l as [|e l IH]; [reflexivity|exact IH]. Qed.

Lemma attempts_removes rs : attempts (map Remove rs) = [].
Proof. induction rs as [|e rs IH]; [reflexivity|exact IH]. Qed.

Lemma removes_no_lock rs :
  forallb (fun ev => negb (is_lock_event ev)) (map Remove rs) = true.
Proof. induction rs as [|e rs IH]; [reflexivity|exact IH]. Qed.

Lemma pass_trace_is_io od m l : forallb is_io (pass_trace od m l) = true.
Proof.
  induction l as [|e l IH]; [reflexivity|].
  change (pass_trace od m (e :: l))
    with (trace1 od m (esock e) ++ pass_trace od m l).
  rewrite forallb_app, IH, andb_true_r. unfold trace1.
  destruct od; [destruct (sendable m (esock e))|]; reflexivity.
Qed.

Lemma all_under_lock_body body :
  forallb (fun ev => negb (is_lock_event ev)) body = true ->
  forall rest, all_under_lock true (body ++ rest) = all_under_lock true rest.
Proof.
  induction body as [|ev body IH]; intros Hb rest; [reflexivity|].
  simpl in Hb. apply andb_true_iff in Hb as [Hev Hb].
  destruct ev; simpl in *; try discriminate; auto.
Qed.

Lemma unreachable_writable od st :
  unreachable od (sockets st) (active_clients st) =
  match od with
  | Some _ =>
    List.filter (fun e => negb (writable st (esock e))) (active_clients st)
  | None => active_clients st
  end.
Proof.
  unfold unreachable. destruct od; [reflexivity|].
  induction (active_clients st) as [|e l IH]; [reflexivity|].
  cbn [List.filter reached negb]. f_equal. exact IH.
Qed.

(** C2 (amended): a broadcast takes the lock, copies the registry,
    makes one write attempt for each entry of that copy, calls [remove]
    for each entry whose write failed, and only then releases the lock.
    Nothing between taking and releasing it is a lock operation, so the
    copy, every write and every deferred removal are made while the lock
    is held. *)
Theorem C2_writes_under_lock message st :
  exists body,
    events_of (send_messages_to_all message) st = Acquire :: body ++ [Release]
    /\ forallb (fun ev => negb (is_lock_event ev)) body = true
    /\ map (fun a => fst (fst a)) (attempts body) =
       match utf8_encode message with
       | Some _ => map esock (active_clients st)
       | None => []
       end
    /\ writes_under_lock false
         (events_of (send_messages_to_all message) st) = true
    /\ (exists writes,
          forallb is_io writes = true
          /\ body =
             Copy :: writes
             ++ map Remove
                  match utf8_encode message with
                  | Some _ =>
                    List.filter (fun e => negb (writable st (esock e)))
                                (active_clients st)
                  | None => active_clients st
                  end)
    /\ all_under_lock false
         (events_of (send_messages_to_all message) st) = true.
Proof.
  set (od := utf8_encode message).
  set (writes := pass_trace od (sockets st) (active_clients st)).
  set (gone := unreachable od (sockets st) (active_clients st)).
  assert (Hnl : forallb (fun ev => negb (is_lock_event ev))
                        (Copy :: writes ++ map Remove gone) = true).
  { cbn [forallb is_lock_event negb andb]. rewrite forallb_app.
    subst writes. rewrite pass_trace_no_lock, removes_no_lock. reflexivity. }
  assert (Hev : events_of (send_messages_to_all message) st =
                Acquire :: (Copy :: writes ++ map Remove gone) ++ [Release]).
  { rewrite events_of_broadcast. cbn [app]. rewrite <- app_assoc. reflexivity. }
  exists (Copy :: writes ++ map Remove gone).
  split; [exact Hev|]. split; [exact Hnl|]. split; [|split; [|split]].
  - cbn [attempts flat_map app]. rewrite attempts_app, attempts_removes, app_nil_r.
    subst writes od. destruct (utf8_encode message) as [data|].
    + rewrite attempts_pass_trace, map_map. reflexivity.
    + rewrite attempts_pass_trace_None. reflexivity.
  - rewrite Hev. cbn [writes_under_lock].
    rewrite writes_under_lock_body by exact Hnl. reflexivity.
  - exists writes. split; [apply pass_trace_is_io|].
    subst gone. rewrite unreachable_writable. reflexivity.
  - rewrite Hev. cbn [all_under_lock].
    rewrite all_under_lock_body by exact Hnl. reflexivity.
Qed.

(** *** Registration *)

(** C3, as the code has it: once [main] has run its shutdown block on
    the three peers, adding a peer still succeeds and registers it. *)
Lemma C3_add_succeeds_after_shutdown :
  fst (registry_add (py "dave") 4%nat (snd (main_shutdown lobby))) = Ok tt
  /\ active_clients (snd (registry_add (py "dave") 4%nat (snd (main_shutdown lobby))))
     = [Entry (py "dave") 4%nat].
Proof. split; vm_compute; reflexivity. Qed.

(** C3 (amended): adding a peer never fails. In every state, whatever
    the registry holds (a peer of the same name included) and whether or
    not shutdown has begun, it returns normally with the peer appended to
    the registry, the sockets untouched, the lock taken and released. *)
Theorem C3_add_always_succeeds name s st :
  registry_add name s st =
  (Ok tt, Server (active_clients st ++ [Entry name s]) (sockets st)
                 (log st ++ [Acquire; Release])).
Proof.
  unfold registry_add, with_lock, bind, try_finally, list_append, get_clients,
    set_clients, emit. simpl. rewrite <- app_assoc. reflexivity.
Qed.

(** *** Pruning of unreachable peers *)

Lemma NoDup_entries l : List.NoDup (map esock l) -> List.NoDup l.
Proof. apply List.NoDup_map_inv. Qed.

(** C4: in a broadcast pass over a registry whose sockets are distinct,
    every entry gets exactly one write attempt, in registry order, whether
    earlier ones failed or not; the entries whose write failed are put on
    the removal list, each once; after the pass they are out of the
    registry with their sockets closed, and the others are still
    registered and have received the payload once. *)
Theorem C4_unreachable_peers_pruned message data st :
  utf8_encode message = Some data ->
  List.NoDup (map esock (active_clients st)) ->
  fst (send_messages_to_all message st) = Ok tt
  /\ attempts (events_of (send_messages_to_all message) st) =
     map (fun e => (esock e, data, writable st (esock e))) (active_clients st)
  /\ fst (broadcast_pass message (active_clients st) [] st) =
     Ok (List.filter (fun e => negb (writable st (esock e))) (active_clients st))
  /\ active_clients (snd (send_messages_to_all message st)) =
     List.filter (fun e => writable st (esock e)) (active_clients st)
  /\ (forall e, In e (active_clients st) -> writable st (esock e) = false ->
        count_occ entry_eq_dec
          (List.filter (fun e => negb (writable st (esock e))) (active_clients st))
          e = 1%nat
        /\ ~ In e (active_clients (snd (send_messages_to_all message st)))
        /\ is_open (snd (send_messages_to_all message st)) (esock e) = false
        /\ received (snd (send_messages_to_all message st)) (esock e) =
           received st (esock e))
  /\ (forall e, In e (active_clients st) -> writable st (esock e) = true ->
        In e (active_clients (snd (send_messages_to_all message st)))
        /\ received (snd (send_messages_to_all message st)) (esock e) =
           received st (esock e) ++ [data]).
Proof.
  intros He Hnd. rewrite send_messages_to_all_spec, events_of_broadcast.
  rewrite broadcast_pass_spec. simpl. rewrite He.
  split; [reflexivity|]. split.
  { rewrite !attempts_app, attempts_pass_trace, attempts_removes.
    cbn [attempts flat_map app]. rewrite app_nil_r. reflexivity. }
  split; [reflexivity|]. split; [reflexivity|]. split.
  - intros e Hin Hw. split; [|split; [|split]].
    + apply List.NoDup_count_occ'.
      * apply List.NoDup_filter, NoDup_entries, Hnd.
      * apply List.filter_In. split; [exact Hin|]. rewrite Hw. reflexivity.
    + unfold kept. rewrite List.filter_In. simpl.
      change (sendable (sockets st) (esock e)) with (writable st (esock e)).
      rewrite Hw. intros [_ H]. discriminate.
    + change (is_open (broadcast_state message st) (esock e) = false).
      apply closed_after_broadcast; [exact Hin|]. rewrite He. exact Hw.
    + change (received (broadcast_state message st) (esock e) = received st (esock e)).
      rewrite received_broadcast, He, Hw. reflexivity.
  - intros e Hin Hw. split.
    + unfold kept. apply List.filter_In. split; [exact Hin|]. exact Hw.
    + change (received (broadcast_state message st) (esock e)
              = received st (esock e) ++ [data]).
      rewrite received_broadcast, He, Hw.
      rewrite (occurrences_NoDup _ _ Hnd Hin). reflexivity.
Qed.

Lemma C4_unreachable_peers_pruned_witness :
  attempts (events_of (send_messages_to_all (py "alice~hello")) lobby_bob_down) =
    [(1%nat, pyb "alice~hello", true); (2%nat, pyb "alice~hello", false);
     (3%nat, pyb "alice~hello", true)]
  /\ active_clients (snd (send_messages_to_all (py "alice~hello") lobby_bob_down))
     = [alice; carol].
Proof.
  destruct (C4_unreachable_peers_pruned (py "alice~hello") (pyb "alice~hello")
              lobby_bob_down) as (_ & Ha & _ & Hk & _).
  - vm_compute. reflexivity.
  - simpl. repeat constructor; simpl; intuition discriminate.
  - split; [rewrite Ha | rewrite Hk]; reflexivity.
Defined.

(** *** The separator on the receiving side *)





(** The same from end to end: bob's listener tags and broadcasts
    ["a~b"], and the bytes alice's socket gets are displayed by her client
    as sender [bob], content ["a~b"]. *)
Example bob_sends_a_tilde_b :
  received (snd (listen_loop 2%nat (py "bob") [Chunk (pyb "a~b")] lobby)) 1%nat
    = [pyb "bob~a~b"]
  /\ receive (pyb "bob~a~b") = Ok (py "[bob] a~b").
Proof. split; vm_compute; reflexivity. Qed.

(** *** The handshake *)

Lemma abort_is_aborted s first st :
  no_name first \/ (exists raw, first = Chunk raw /\ utf8_decode raw = None) ->
  aborted s first st.
Proof.
  intros H. destruct (client_handler_abort s first st H) as (m' & Heq & Hw).
  unfold aborted, events_of. rewrite Heq. simpl.
  split; [reflexivity|]. split; [apply is_open_mark_closed|].
  split; [reflexivity|]. split; [apply drop_app_length|].
  intros s'. unfold received. simpl.
  specialize (Hw s'). rewrite <- (wire_mark_closed s m' s') in Hw.
  destruct (mark_closed s m' !! s'), (sockets st !! s'); simpl in Hw;
    congruence.
Qed.

(** C6: when the read of the handshake times out, or fails, or returns
    no bytes because the connection was closed, or returns bytes whose
    decoded text is empty once stripped, the socket is closed, no peer is
    registered and nothing is written to any peer. *)
Theorem C6_handshake_without_name s first st :
  first = Silence \/ first = Reset \/
  (exists raw text,
     first = Chunk raw /\ utf8_decode raw = Some text /\ strip text = []) ->
  fst (client_handler s first st) = Ok tt
  /\ is_open (snd (client_handler s first st)) s = false
  /\ active_clients (snd (client_handler s first st)) = active_clients st
  /\ events_of (client_handler s first) st = [Close s]
  /\ forall s', received (snd (client_handler s first st)) s' = received st s'.
Proof. intros H. apply abort_is_aborted. left. exact H. Qed.

Lemma C6_handshake_without_name_witness :
  fst (client_handler 4%nat (Chunk (pyb "   ")) lobby_and_guest) = Ok tt
  /\ is_open (snd (client_handler 4%nat (Chunk (pyb "   ")) lobby_and_guest)) 4%nat
     = false
  /\ active_clients (snd (client_handler 4%nat (Chunk (pyb "   ")) lobby_and_guest))
     = active_clients lobby_and_guest
  /\ events_of (client_handler 4%nat (Chunk (pyb "   "))) lobby_and_guest
     = [Close 4%nat]
  /\ forall s',
       received (snd (client_handler 4%nat (Chunk (pyb "   ")) lobby_and_guest)) s'
       = received lobby_and_guest s'.
Proof.
  apply (C6_handshake_without_name 4%nat (Chunk (pyb "   ")) lobby_and_guest).
  right. right. exists (pyb "   "), (py "   ").
  repeat split; vm_compute; reflexivity.
Defined.

(** The other cases the claim names, on the same connection. *)
Example handshake_examples :
  aborted 4%nat (Chunk []) lobby_and_guest
  /\ aborted 4%nat Silence lobby_and_guest
  /\ aborted 4%nat Reset lobby_and_guest.
Proof.
  split; [|split]; apply abort_is_aborted; left.
  - right. right. exists [], []. repeat split.
  - left. reflexivity.
  - right. left. reflexivity.
Qed.

(** C10: when the first chunk is not valid UTF-8 the handshake ends as
    the other failed handshakes do: the socket is closed, no peer is
    registered and nothing is written to any peer. The same bytes read in
    a session would have been passed on in their [repr] form. *)
Theorem C10_handshake_invalid_utf8 s raw st :
  utf8_decode raw = None ->
  (fst (client_handler s (Chunk raw) st) = Ok tt
   /\ is_open (snd (client_handler s (Chunk raw) st)) s = false
   /\ active_clients (snd (client_handler s (Chunk raw) st)) = active_clients st
   /\ events_of (client_handler s (Chunk raw)) st = [Close s]
   /\ forall s',
        received (snd (client_handler s (Chunk raw) st)) s' = received st s')
  /\ decode_or_repr raw = bytes_repr raw.
Proof.
  intros H. split.
  - apply abort_is_aborted. right. exists raw. split; [reflexivity | exact H].
  - unfold decode_or_repr. rewrite H. reflexivity.
Qed.

Lemma C10_handshake_invalid_utf8_witness :
  (fst (client_handler 4%nat (Chunk [xff; xfe]) lobby_and_guest) = Ok tt
   /\ is_open (snd (client_handler 4%nat (Chunk [xff; xfe]) lobby_and_guest)) 4%nat
      = false
   /\ active_clients (snd (client_handler 4%nat (Chunk [xff; xfe]) lobby_and_guest))
      = active_clients lobby_and_guest
   /\ events_of (client_handler 4%nat (Chunk [xff; xfe])) lobby_and_guest
      = [Close 4%nat]
   /\ forall s',
        received (snd (client_handler 4%nat (Chunk [xff; xfe]) lobby_and_guest)) s'
        = received lobby_and_guest s')
  /\ decode_or_repr [xff; xfe] = bytes_repr [xff; xfe].
Proof.
  apply (C10_handshake_invalid_utf8 4%nat [xff; xfe] lobby_and_guest).
  vm_compute. reflexivity.
Defined.

(** *** Removal *)

Lemma find_by_sock_absent s l :
  ~ In s (map esock l) -> find_by_sock s l = None.
Proof.
  induction l as [|e l IH]; [reflexivity|]. simpl. intros H.
  rewrite bool_decide_eq_false_2 by tauto. apply IH. tauto.
Qed.

Lemma registry_remove_absent s st :
  ~ In s (map esock (active_clients st)) ->
  registry_remove s st =
  (Ok tt, Server (active_clients st) (sockets st) (log st ++ [Acquire; Release])).
Proof.
  intros H. unfold registry_remove, with_lock, bind, try_finally, get_clients,
    emit. simpl. rewrite (find_by_sock_absent _ _ H). simpl.
  rewrite <- app_assoc. reflexivity.
Qed.

Lemma kept_mark_closed od s m l :
  ~ In s (map esock l) -> kept od (mark_closed s m) l = kept od m l.
Proof.
  intros H. unfold kept. apply List.filter_ext_in. intros e He.
  destruct od as [data|]; [|reflexivity]. simpl.
  apply sendable_mark_closed. right. intros ->. apply H, in_map, He.
Qed.

Lemma kept_writable od st :
  kept od (sockets st) (active_clients st) =
  match od with
  | Some _ => List.filter (fun e => writable st (esock e)) (active_clients st)
  | None => []
  end.
Proof.
  unfold kept. destruct od; [reflexivity|].
  induction (active_clients st) as [|e l IH]; [reflexivity|exact IH].
Qed.

Lemma without_absent s l : ~ In s (map esock l) -> without s l = l.
Proof. intros H. unfold without. rewrite (find_by_sock_absent _ _ H). reflexivity. Qed.

(** C7, as the code has it: socket 4 is in no entry of the registry of
    alice, bob and carol, bob's transport being broken; [remove_client] on
    it returns normally, but the departure announcement it broadcasts
    prunes bob, so the registry is not what it was. *)
Lemma C7_remove_absent_prunes_bob :
  ~ In 4%nat (map esock (active_clients lobby_bob_down))
  /\ fst (remove_client 4%nat (py "dave") lobby_bob_down) = Ok tt
  /\ active_clients (snd (remove_client 4%nat (py "dave") lobby_bob_down))
     = [alice; carol]
  /\ active_clients (snd (remove_client 4%nat (py "dave") lobby_bob_down))
     <> active_clients lobby_bob_down.
Proof.
  split; [simpl; intuition discriminate|].
  split; [vm_compute; reflexivity|].
  split; [vm_compute; reflexivity|].
  vm_compute. discriminate.
Qed.

(** C7 (amended): removing a peer whose socket is in no entry of the
    registry raises nothing, and the removal step (the block of
    [remove_client] under the lock) leaves the registry and the sockets as
    they are. [remove_client] as a whole returns normally too, but it
    still broadcasts the departure announcement, which prunes as every
    broadcast does: the registry it leaves is the one that broadcast
    leaves, that is, the registered peers that can be written to (none
    when the announcement has no encoding). So the registry is unchanged
    when every registered peer can be written to. *)
Theorem C7_remove_absent_prunes_only_unreachable s name st :
  ~ In s (map esock (active_clients st)) ->
  fst (registry_remove s st) = Ok tt
  /\ active_clients (snd (registry_remove s st)) = active_clients st
  /\ sockets (snd (registry_remove s st)) = sockets st
  /\ fst (remove_client s name st) = Ok tt
  /\ active_clients (snd (remove_client s name st)) =
     active_clients (snd (send_messages_to_all (left_msg name) st))
  /\ active_clients (snd (remove_client s name st)) =
     match utf8_encode (left_msg name) with
     | Some _ =>
       List.filter (fun e => writable st (esock e)) (active_clients st)
     | None => []
     end
  /\ (utf8_encode (left_msg name) <> None ->
      (forall e, In e (active_clients st) -> writable st (esock e) = true) ->
      active_clients (snd (remove_client s name st)) = active_clients st).
Proof.
  intros H. rewrite registry_remove_absent by assumption.
  cbn [fst snd active_clients sockets].
  repeat (split; [reflexivity|]).
  unfold remove_client, bind, try_except.
  rewrite registry_remove_absent by assumption.
  rewrite close_spec, !send_messages_to_all_spec.
  cbn [fst snd broadcast_state active_clients sockets log].
  assert (Hk : kept (utf8_encode (left_msg name)) (mark_closed s (sockets st))
                    (active_clients st)
               = match utf8_encode (left_msg name) with
                 | Some _ =>
                   List.filter (fun e => writable st (esock e)) (active_clients st)
                 | None => []
                 end).
  { rewrite (kept_mark_closed _ _ _ _ H). apply kept_writable. }
  split; [reflexivity|]. split; [apply kept_mark_closed, H|].
  split; [exact Hk|].
  intros He Hall. rewrite Hk.
  destruct (utf8_encode (left_msg name)); [|done].
  apply List.forallb_filter_id, forallb_forall. exact Hall.
Qed.

Lemma C7_remove_absent_prunes_only_unreachable_witness :
  fst (registry_remove 4%nat lobby_bob_down) = Ok tt
  /\ active_clients (snd (registry_remove 4%nat lobby_bob_down))
     = active_clients lobby_bob_down
  /\ fst (remove_client 4%nat (py "dave") lobby_bob_down) = Ok tt
  /\ active_clients (snd (remove_client 4%nat (py "dave") lobby_bob_down)) =
     List.filter (fun e => writable lobby_bob_down (esock e))
                 (active_clients lobby_bob_down).
Proof.
  destruct (C7_remove_absent_prunes_only_unreachable 4%nat (py "dave")
              lobby_bob_down) as (H1 & H2 & _ & H4 & _ & H6 & _).
  - simpl. intuition discriminate.
  - split; [exact H1|]. split; [exact H2|]. split; [exact H4|].
    rewrite H6. reflexivity.
Defined.

(** *** The operator console *)




(** *** The join announcement *)



(** The announcement dave's own socket gets. *)
Example dave_joins :
  received (snd (client_handler 4%nat (Chunk (pyb " dave ")) lobby_and_guest)) 4%nat
  = [pyb "SERVER~dave joined the chat"].
Proof. vm_compute. reflexivity. Qed.

(** ** Further properties: the wire format *)

Ltac Zify.zify_post_hook ::= Z.to_euclidean_division_equations.

Lemma to_N_byte_of_N n : n < 256 -> Byte.to_N (byte_of_N n) = n.
Proof.
  intros H. unfold byte_of_N. destruct (Byte.of_N n) as [b|] eqn:E.
  - apply Byte.to_of_N. exact E.
  - apply Byte.of_N_None_iff in E. lia.
Qed.

Lemma byte_of_N_to_N b : byte_of_N (Byte.to_N b) = b.
Proof. unfold byte_of_N. rewrite Byte.of_to_N. reflexivity. Qed.

Lemma in_range_true lo hi c : lo <= c -> c <= hi -> in_range lo hi c = true.
Proof.
  intros H1 H2. apply andb_true_iff. split; apply N.leb_le; assumption.
Qed.

Lemma in_range_false lo hi c : c < lo \/ hi < c -> in_range lo hi c = false.
Proof.
  intros H. apply andb_false_iff.
  destruct H; [left | right]; apply N.leb_gt; assumption.
Qed.

Lemma is_cont_true c : 0x80 <= c -> c <= 0xBF -> is_cont c = true.
Proof. apply in_range_true. Qed.

Lemma ltb_true a b : a < b -> (a <? b) = true.
Proof. apply N.ltb_lt. Qed.

Lemma ltb_false a b : b <= a -> (a <? b) = false.
Proof. apply N.ltb_ge. Qed.

Lemma is_scalar_cases c :
  is_scalar c = true -> c < 0xD800 \/ (0xDFFF < c /\ c <= 0x10FFFF).
Proof.
  unfold is_scalar. intros H. apply orb_true_iff in H as [H|H].
  - left. apply N.ltb_lt. exact H.
  - right. apply andb_true_iff in H as [H1 H2].
    split; [apply N.ltb_lt | apply N.leb_le]; assumption.
Qed.

Lemma second_ok_true c0 c1 :
  0x80 <= c1 -> c1 <= 0xBF ->
  (c0 = 0xE0 -> 0xA0 <= c1) -> (c0 = 0xED -> c1 <= 0x9F) ->
  (c0 = 0xF0 -> 0x90 <= c1) -> (c0 = 0xF4 -> c1 <= 0x8F) ->
  second_ok c0 c1 = true.
Proof.
  intros H1 H2 Ha Hb Hc Hd. unfold second_ok.
  destruct (N.eqb_spec c0 0xE0); [apply in_range_true; auto|].
  destruct (N.eqb_spec c0 0xED); [apply in_range_true; auto|].
  destruct (N.eqb_spec c0 0xF0); [apply in_range_true; auto|].
  destruct (N.eqb_spec c0 0xF4); [apply in_range_true; auto|].
  apply is_cont_true; assumption.
Qed.

(** Decoding what [encode_cp] produced gives the code point back. *)
Lemma utf8_decode_encode_cp c rest :
  is_scalar c = true ->
  utf8_decode (encode_cp c ++ rest) = cons c <$> utf8_decode rest.
Proof.
  intros Hs. apply is_scalar_cases in Hs. unfold encode_cp.
  destruct (N.ltb_spec c 0x80) as [H1|H1].
  { cbn [app]. rewrite utf8_decode_cons. cbv zeta.
    rewrite to_N_byte_of_N by lia. rewrite ltb_true by lia. reflexivity. }
  destruct (N.ltb_spec c 0x800) as [H2|H2].
  { cbn [app]. rewrite utf8_decode_cons. cbv zeta.
    rewrite !to_N_byte_of_N by lia.
    rewrite ltb_false by lia. rewrite in_range_true by lia.
    rewrite is_cont_true by lia.
    replace (cp2 (0xC0 + c / 0x40) (0x80 + c mod 0x40)) with c
      by (unfold cp2; lia).
    reflexivity. }
  destruct (N.ltb_spec c 0x10000) as [H3|H3].
  { cbn [app]. rewrite utf8_decode_cons. cbv zeta.
    rewrite !to_N_byte_of_N by lia.
    rewrite ltb_false by lia. rewrite in_range_false by lia.
    rewrite in_range_true by lia.
    rewrite second_ok_true by lia. rewrite is_cont_true by lia.
    replace (cp3 (0xE0 + c / 0x1000) (0x80 + (c / 0x40) mod 0x40)
                 (0x80 + c mod 0x40)) with c by (unfold cp3; lia).
    reflexivity. }
  cbn [app]. rewrite utf8_decode_cons. cbv zeta.
  rewrite !to_N_byte_of_N by lia.
  rewrite ltb_false by lia. rewrite !in_range_false by lia.
  rewrite in_range_true by lia.
  rewrite second_ok_true by lia. rewrite !is_cont_true by lia.
  replace (cp4 (0xF0 + c / 0x40000) (0x80 + (c / 0x1000) mod 0x40)
               (0x80 + (c / 0x40) mod 0x40) (0x80 + c mod 0x40)) with c
    by (unfold cp4; lia).
  reflexivity.
Qed.

(** What [encode] produces, [decode] reads back: the bytes of any text
    that has an encoding decode to that text. *)
Theorem utf8_decode_encode text data :
  utf8_encode text = Some data -> utf8_decode data = Some text.
Proof.
  revert data. induction text as [|c r IH]; intros data H.
  - injection H as <-. reflexivity.
  - simpl in H. destruct (is_scalar c) eqn:Hs; [|discriminate].
    apply fmap_Some in H as (d & Hd & ->).
    rewrite (utf8_decode_encode_cp _ _ Hs), (IH d Hd). reflexivity.
Qed.

Lemma utf8_decode_encode_witness :
  utf8_decode (pyb "alice~hello") = Some (py "alice~hello").
Proof.
  apply (utf8_decode_encode (py "alice~hello") (pyb "alice~hello")).
  vm_compute. reflexivity.
Defined.

Lemma encode_cp_1 b :
  Byte.to_N b < 0x80 -> encode_cp (Byte.to_N b) = [b].
Proof.
  intros H. unfold encode_cp. rewrite ltb_true by assumption.
  rewrite byte_of_N_to_N. reflexivity.
Qed.

Lemma encode_cp_2 b0 b1 :
  in_range 0xC2 0xDF (Byte.to_N b0) = true -> is_cont (Byte.to_N b1) = true ->
  encode_cp (cp2 (Byte.to_N b0) (Byte.to_N b1)) = [b0; b1].
Proof.
  unfold in_range, is_cont. intros H0 H1. to_prop.
  unfold encode_cp, cp2.
  rewrite ltb_false by lia. rewrite ltb_true by lia.
  replace (0xC0 + _ / 0x40) with (Byte.to_N b0) by lia.
  replace (0x80 + _ mod 0x40) with (Byte.to_N b1) by lia.
  rewrite !byte_of_N_to_N. reflexivity.
Qed.

Lemma second_ok_cases c0 c1 :
  second_ok c0 c1 = true ->
  0x80 <= c1 /\ c1 <= 0xBF
  /\ (c0 = 0xE0 -> 0xA0 <= c1) /\ (c0 = 0xED -> c1 <= 0x9F)
  /\ (c0 = 0xF0 -> 0x90 <= c1) /\ (c0 = 0xF4 -> c1 <= 0x8F).
Proof.
  unfold second_ok, in_range, is_cont.
  destruct (N.eqb_spec c0 0xE0); [|destruct (N.eqb_spec c0 0xED);
    [|destruct (N.eqb_spec c0 0xF0); [|destruct (N.eqb_spec c0 0xF4)]]];
    intros H; to_prop; lia.
Qed.

Lemma encode_cp_3 b0 b1 b2 :
  in_range 0xE0 0xEF (Byte.to_N b0) = true ->
  second_ok (Byte.to_N b0) (Byte.to_N b1) = true ->
  is_cont (Byte.to_N b2) = true ->
  encode_cp (cp3 (Byte.to_N b0) (Byte.to_N b1) (Byte.to_N b2)) = [b0; b1; b2].
Proof.
  intros H0 H1 H2. apply second_ok_cases in H1.
  unfold in_range, is_cont in *. to_prop.
  unfold encode_cp, cp3.
  rewrite !ltb_false by lia. rewrite ltb_true by lia.
  replace (0xE0 + _ / 0x1000) with (Byte.to_N b0) by lia.
  replace (0x80 + (_ / 0x40) mod 0x40) with (Byte.to_N b1) by lia.
  replace (0x80 + _ mod 0x40) with (Byte.to_N b2) by lia.
  rewrite !byte_of_N_to_N. reflexivity.
Qed.

Lemma encode_cp_4 b0 b1 b2 b3 :
  in_range 0xF0 0xF4 (Byte.to_N b0) = true ->
  second_ok (Byte.to_N b0) (Byte.to_N b1) = true ->
  is_cont (Byte.to_N b2) = true -> is_cont (Byte.to_N b3) = true ->
  encode_cp (cp4 (Byte.to_N b0) (Byte.to_N b1) (Byte.to_N b2) (Byte.to_N b3))
  = [b0; b1; b2; b3].
Proof.
  intros H0 H1 H2 H3. apply second_ok_cases in H1.
  unfold in_range, is_cont in *. to_prop.
  unfold encode_cp, cp4.
  rewrite !ltb_false by lia.
  replace (0xF0 + _ / 0x40000) with (Byte.to_N b0) by lia.
  replace (0x80 + (_ / 0x1000) mod 0x40) with (Byte.to_N b1) by lia.
  replace (0x80 + (_ / 0x40) mod 0x40) with (Byte.to_N b2) by lia.
  replace (0x80 + _ mod 0x40) with (Byte.to_N b3) by lia.
  rewrite !byte_of_N_to_N. reflexivity.
Qed.

Lemma utf8_encode_decode_bounded n : forall bs text,
  (length bs <= n)%nat -> utf8_decode bs = Some text ->
  utf8_encode text = Some bs.
Proof.
  induction n as [|n IH]; intros bs text Hlen Hd.
  - destruct bs; [|simpl in Hlen; lia]. injection Hd as <-. reflexivity.
  - destruct bs as [|b0 r0]; [injection Hd as <-; reflexivity|].
    rewrite utf8_decode_cons in Hd. simpl in Hlen. cbv zeta in Hd.
    destruct (Byte.to_N b0 <? 0x80) eqn:E1.
    { apply fmap_Some in Hd as (t & Ht & ->).
      cbn [utf8_encode]. rewrite (IH r0 t) by (assumption || lia).
      rewrite is_scalar_intro by (to_prop; lia).
      rewrite encode_cp_1 by (to_prop; assumption). reflexivity. }
    destruct (in_range 0xC2 0xDF (Byte.to_N b0)) eqn:E2.
    { destruct r0 as [|b1 r1]; [discriminate|].
      destruct (is_cont (Byte.to_N b1)) eqn:C1; [|discriminate].
      apply fmap_Some in Hd as (t & Ht & ->). simpl in Hlen.
      cbn [utf8_encode]. rewrite (IH r1 t) by (assumption || lia).
      rewrite cp2_scalar, encode_cp_2 by assumption. reflexivity. }
    destruct (in_range 0xE0 0xEF (Byte.to_N b0)) eqn:E3.
    { destruct r0 as [|b1 [|b2 r2]]; try discriminate.
      destruct (second_ok _ _ && is_cont _) eqn:C; [|discriminate].
      apply andb_true_iff in C as [C1 C2].
      apply fmap_Some in Hd as (t & Ht & ->). simpl in Hlen.
      cbn [utf8_encode]. rewrite (IH r2 t) by (assumption || lia).
      rewrite cp3_scalar, encode_cp_3 by assumption. reflexivity. }
    destruct (in_range 0xF0 0xF4 (Byte.to_N b0)) eqn:E4; [|discriminate].
    destruct r0 as [|b1 [|b2 [|b3 r3]]]; try discriminate.
    destruct (second_ok _ _ && is_cont _ && is_cont _) eqn:C; [|discriminate].
    apply andb_true_iff in C as [C C3]. apply andb_true_iff in C as [C1 C2].
    apply fmap_Some in Hd as (t & Ht & ->). simpl in Hlen.
    cbn [utf8_encode]. rewrite (IH r3 t) by (assumption || lia).
    rewrite cp4_scalar, encode_cp_4 by assumption. reflexivity.
Qed.

(** Decoding loses nothing: bytes that decode are exactly the encoding
    of the text they decode to, so no two byte strings decode to the same
    text (overlong forms are refused). *)
Theorem utf8_encode_decode data text :
  utf8_decode data = Some text -> utf8_encode text = Some data.
Proof. apply (utf8_encode_decode_bounded (length data)). lia. Qed.

Lemma utf8_encode_decode_witness :
  utf8_encode [233; 8364; 128512] =
  Some [xc3; xa9; xe2; x82; xac; xf0; x9f; x98; x80].
Proof.
  apply (utf8_encode_decode [xc3; xa9; xe2; x82; xac; xf0; x9f; x98; x80]
           [233; 8364; 128512]).
  vm_compute. reflexivity.
Defined.

Lemma utf8_encode_app a b x y :
  utf8_encode a = Some x -> utf8_encode b = Some y ->
  utf8_encode (a ++ b) = Some (x ++ y).
Proof.
  revert x. induction a as [|c r IH]; intros x Ha Hb.
  - injection Ha as <-. exact Hb.
  - simpl in *. destruct (is_scalar c); [|discriminate].
    apply fmap_Some in Ha as (d & Hd & ->).
    rewrite (IH d Hd Hb). simpl. rewrite <- app_assoc. reflexivity.
Qed.

Lemma utf8_encode_forallb text data :
  utf8_encode text = Some data -> forallb is_scalar text = true.
Proof.
  revert data. induction text as [|c r IH]; intros data H; [reflexivity|].
  simpl in *. destruct (is_scalar c); [|discriminate].
  apply fmap_Some in H as (d & Hd & _). exact (IH d Hd).
Qed.

(** *** The fallback text of the listener *)

Lemma hex_digit_printable n : n < 16 -> printable (hex_digit n) = true.
Proof.
  intros H. unfold hex_digit, printable.
  destruct (N.ltb_spec n 10); apply in_range_true; lia.
Qed.

Lemma repr_byte_printable q c :
  q = 0x22 \/ q = 0x27 -> c < 256 -> forallb printable (repr_byte q c) = true.
Proof.
  intros Hq Hc. unfold repr_byte.
  destruct ((c =? q) || (c =? 0x5C)) eqn:E1.
  { apply orb_true_iff in E1 as [E|E]; apply N.eqb_eq in E; subst c;
      [destruct Hq as [-> | ->]|]; reflexivity. }
  destruct (N.eqb_spec c 0x09); [reflexivity|].
  destruct (N.eqb_spec c 0x0A); [reflexivity|].
  destruct (N.eqb_spec c 0x0D); [reflexivity|].
  destruct ((c <? 0x20) || (0x7F <=? c)) eqn:E2.
  - rewrite forallb_app. cbn [forallb].
    rewrite !hex_digit_printable by lia. reflexivity.
  - apply orb_false_iff in E2 as [Ea Eb].
    apply N.ltb_ge in Ea. apply N.leb_gt in Eb.
    cbn [forallb]. unfold printable. rewrite in_range_true by lia. reflexivity.
Qed.

Lemma repr_bytes_printable q data :
  q = 0x22 \/ q = 0x27 ->
  forallb printable (flat_map (fun b => repr_byte q (Byte.to_N b)) data) = true.
Proof.
  intros Hq. induction data as [|b r IH]; [reflexivity|].
  cbn [flat_map]. rewrite forallb_app, IH, andb_true_r.
  apply repr_byte_printable; [exact Hq|].
  pose proof (Byte.to_N_bounded b). lia.
Qed.

Lemma bytes_repr_printable data : forallb printable (bytes_repr data) = true.
Proof.
  unfold bytes_repr.
  assert (Hq : quote_of data = 0x22 \/ quote_of data = 0x27).
  { unfold quote_of. destruct (_ && _); auto. }
  rewrite !forallb_app, (repr_bytes_printable _ _ Hq). cbn [forallb].
  destruct Hq as [-> | ->]; reflexivity.
Qed.

Lemma printable_scalar text :
  forallb printable text = true -> forallb is_scalar text = true.
Proof.
  induction text as [|c r IH]; [reflexivity|]. cbn [forallb]. intros H.
  apply andb_true_iff in H as [Hc Hr]. rewrite (IH Hr), andb_true_r.
  unfold printable, in_range in Hc. to_prop. apply is_scalar_intro. lia.
Qed.

Lemma decode_or_repr_scalar data :
  forallb is_scalar (decode_or_repr data) = true.
Proof.
  unfold decode_or_repr. destruct (utf8_decode data) as [text|] eqn:E.
  - exact (utf8_decode_scalar _ _ E).
  - apply printable_scalar, bytes_repr_printable.
Qed.



Lemma final_msg_encodes name nb content cb :
  utf8_encode name = Some nb -> utf8_encode content = Some cb ->
  utf8_encode (final_msg name content) = Some (nb ++ x7e :: cb).
Proof.
  intros Hn Hc. unfold final_msg.
  apply (utf8_encode_app name ([SEP] ++ content) nb (x7e :: cb) Hn).
  apply (utf8_encode_app [SEP] content [x7e] cb); [reflexivity | exact Hc].
Qed.

(** X2 (relay of valid text): when a listener reads a chunk that is
    valid UTF-8, what it writes to every registered peer that can be
    written to is the bytes of the sender's name, the byte [~], and the
    chunk itself, unchanged. *)
Theorem relay_passes_valid_chunk s name nb data text e st :
  is_open st s = true -> utf8_encode name = Some nb ->
  utf8_decode data = Some text -> data <> [] ->
  In e (active_clients st) -> writable st (esock e) = true ->
  received (snd (listen_loop s name [Chunk data] st)) (esock e) =
  received st (esock e)
  ++ replicate (occurrences (esock e) (active_clients st)) (nb ++ x7e :: data).
Proof.
  intros Ho Hn Hd Hne Hin Hw. rewrite listen_turn by assumption. cbn [snd].
  rewrite received_broadcast.
  unfold decode_or_repr. rewrite Hd.
  rewrite (final_msg_encodes _ _ _ _ Hn (utf8_encode_decode _ _ Hd)), Hw.
  reflexivity.
Qed.

Lemma relay_passes_valid_chunk_witness :
  received (snd (listen_loop 1%nat (py "alice") [Chunk [xc3; xa9]] lobby))
           (esock bob) =
  received lobby (esock bob)
  ++ replicate (occurrences (esock bob) (active_clients lobby))
               (pyb "alice" ++ x7e :: [xc3; xa9]).
Proof.
  apply (relay_passes_valid_chunk 1%nat (py "alice") (pyb "alice") [xc3; xa9]
           [233] bob lobby).
  - reflexivity.
  - vm_compute. reflexivity.
  - vm_compute. reflexivity.
  - discriminate.
  - simpl. right. left. reflexivity.
  - reflexivity.
Defined.

(** X3 (relay of invalid bytes): when a listener reads a chunk that is
    not valid UTF-8 the session goes on: what it writes to every
    registered peer that can be written to is the sender's name, the byte
    [~], and the [repr] of the chunk, which is made of visible ASCII
    characters only. *)
Theorem relay_passes_repr_of_invalid_chunk s name nb data e st :
  is_open st s = true -> utf8_encode name = Some nb ->
  utf8_decode data = None ->
  In e (active_clients st) -> writable st (esock e) = true ->
  exists rb,
    utf8_encode (bytes_repr data) = Some rb
    /\ forallb printable (bytes_repr data) = true
    /\ received (snd (listen_loop s name [Chunk data] st)) (esock e) =
       received st (esock e)
       ++ replicate (occurrences (esock e) (active_clients st))
                    (nb ++ x7e :: rb).
Proof.
  intros Ho Hn Hd Hin Hw.
  destruct (utf8_encode_scalar (bytes_repr data)) as [rb Hrb].
  { apply printable_scalar, bytes_repr_printable. }
  exists rb. split; [exact Hrb|]. split; [apply bytes_repr_printable|].
  assert (Hne : data <> []) by (intros ->; discriminate Hd).
  rewrite listen_turn by assumption. cbn [snd].
  rewrite received_broadcast.
  unfold decode_or_repr. rewrite Hd.
  rewrite (final_msg_encodes _ _ _ _ Hn Hrb), Hw. reflexivity.
Qed.

Lemma relay_passes_repr_of_invalid_chunk_witness :
  exists rb,
    utf8_encode (bytes_repr [xff; x7e]) = Some rb
    /\ forallb printable (bytes_repr [xff; x7e]) = true
    /\ received (snd (listen_loop 1%nat (py "alice") [Chunk [xff; x7e]] lobby))
                (esock bob) =
       received lobby (esock bob)
       ++ replicate (occurrences (esock bob) (active_clients lobby))
                    (pyb "alice" ++ x7e :: rb).
Proof.
  apply (relay_passes_repr_of_invalid_chunk 1%nat (py "alice") (pyb "alice")
           [xff; x7e] bob lobby).
  - reflexivity.
  - vm_compute. reflexivity.
  - vm_compute. reflexivity.
  - simpl. right. left. reflexivity.
  - reflexivity.
Defined.

(** *** Splitting and stripping *)

Lemma contains_cons sep c r :
  contains sep (c :: r) = (sep =? c) || contains sep r.
Proof. reflexivity. Qed.

Lemma split1_cons sep c r :
  split1 sep (c :: r) =
  if c =? sep then [[]; r]
  else match split1 sep r with
       | p :: ps => (c :: p) :: ps
       | [] => [[c]]
       end.
Proof. reflexivity. Qed.

Lemma split1_absent sep s : contains sep s = false -> split1 sep s = [s].
Proof.
  induction s as [|c r IH]; [reflexivity|]. rewrite contains_cons, split1_cons.
  intros H. apply orb_false_iff in H as [Hc Hr].
  rewrite N.eqb_sym, Hc, (IH Hr). reflexivity.
Qed.

Lemma split1_present sep s :
  contains sep s = true ->
  exists a b,
    s = a ++ [sep] ++ b /\ contains sep a = false /\ split1 sep s = [a; b].
Proof.
  induction s as [|c r IH]; [discriminate|].
  rewrite contains_cons, split1_cons. intros H.
  destruct (N.eqb_spec c sep) as [->|Hne].
  - exists [], r. repeat split.
  - rewrite N.eqb_sym in H. apply N.eqb_neq in Hne. rewrite Hne in H.
    destruct (IH H) as (a & b & -> & Ha & Hs).
    exists (c :: a), b. rewrite Hs, contains_cons, N.eqb_sym, Hne, Ha.
    repeat split.
Qed.

Lemma show_cases message :
  (contains SEP message = false
   /\ show message = Ok (py "[SERVER] " ++ message))
  \/ (exists name content,
        message = name ++ [SEP] ++ content
        /\ contains SEP name = false
        /\ show message = Ok (py "[" ++ name ++ py "] " ++ content)).
Proof.
  unfold show. destruct (contains SEP message) eqn:E.
  - right. destruct (split1_present _ _ E) as (a & b & Hm & Ha & Hs).
    exists a, b. rewrite Hs. repeat split; assumption.
  - left. split; reflexivity.
Qed.

(** X4: the tuple assignment of the client's receive loop cannot fail.
    Whatever text arrives, either it has no separator and is shown as a
    message of the server, or it is cut at its first separator into a
    sender free of separators and a content, and shown under that
    sender. *)
Theorem show_never_raises message :
  (contains SEP message = false
   /\ show message = Ok (py "[SERVER] " ++ message))
  \/ (exists name content,
        message = name ++ [SEP] ++ content
        /\ contains SEP name = false
        /\ show message = Ok (py "[" ++ name ++ py "] " ++ content)).
Proof. apply show_cases. Qed.


Lemma lstrip_head s c r : lstrip s = c :: r -> isspace c = false.
Proof.
  induction s as [|x t IH]; [discriminate|]. cbn [lstrip].
  destruct (isspace x) eqn:E; [exact IH|]. intros H. injection H as <- _.
  exact E.
Qed.

Lemma rstrip_cons c r :
  rstrip (c :: r) =
  match rstrip r with
  | [] => if isspace c then [] else [c]
  | r' => c :: r'
  end.
Proof. reflexivity. Qed.

Lemma rstrip_last s : rstrip s <> [] -> isspace (List.last (rstrip s) 0) = false.
Proof.
  induction s as [|c r IH]; [done|]. rewrite rstrip_cons.
  destruct (rstrip r) as [|x t] eqn:E.
  - destruct (isspace c) eqn:Ec; [done|]. intros _. exact Ec.
  - intros _. change (List.last (c :: x :: t) 0) with (List.last (x :: t) 0).
    apply IH. discriminate.
Qed.

Lemma rstrip_head c r x t : rstrip (c :: r) = x :: t -> x = c.
Proof.
  rewrite rstrip_cons. destruct (rstrip r).
  - destruct (isspace c); [discriminate|]. intros H. injection H as <- _.
    reflexivity.
  - intros H. injection H as <- _. reflexivity.
Qed.


Lemma strip_ends s c r :
  strip s = c :: r ->
  isspace c = false /\ isspace (List.last (c :: r) 0) = false.
Proof.
  unfold strip. intros H. split.
  - destruct (lstrip s) as [|x t] eqn:E; [discriminate|].
    rewrite (rstrip_head _ _ _ _ H). exact (lstrip_head _ _ _ E).
  - rewrite <- H. apply rstrip_last. rewrite H. discriminate.
Qed.



Lemma lstrip_blank s : forallb isspace s = true -> lstrip s = [].
Proof.
  induction s as [|c r IH]; [reflexivity|]. cbn [forallb lstrip]. intros H.
  apply andb_true_iff in H as [Hc Hr]. rewrite Hc. exact (IH Hr).
Qed.

Lemma strip_blank s : forallb isspace s = true -> strip s = [].
Proof. intros H. unfold strip. rewrite (lstrip_blank _ H). reflexivity. Qed.

(** *** The handshake, all cases *)

Lemma client_handler_closed s first st :
  is_open st s = false ->
  client_handler s first st =
  (Ok tt, Server (active_clients st) (mark_closed s (sockets st))
                 (log st ++ [Close s])).
Proof.
  intros Ho. unfold client_handler, try_except, bind.
  rewrite settimeout_fail by assumption. simpl. rewrite close_spec.
  reflexivity.
Qed.

Lemma strip_clean text : strip text <> [] -> clean_name (strip text) = true.
Proof.
  intros Hn. destruct (strip text) as [|c r] eqn:E; [done|].
  destruct (strip_ends _ _ _ E) as [Hc Hl].
  unfold clean_name. rewrite Hc, Hl. reflexivity.
Qed.

(** The two ways a handshake ends. *)
Lemma client_handler_cases s first st :
  (exists m',
     client_handler s first st =
     (Ok tt, Server (active_clients st) (mark_closed s m') (log st ++ [Close s])))
  \/ (exists raw text,
        first = Chunk raw /\ utf8_decode raw = Some text /\ strip text <> []
        /\ is_open st s = true).
Proof.
  destruct (is_open st s) eqn:Ho.
  2:{ left. eexists. apply client_handler_closed, Ho. }
  assert (Hab : no_name first
                \/ (exists raw, first = Chunk raw /\ utf8_decode raw = None) ->
    exists m', client_handler s first st =
      (Ok tt, Server (active_clients st) (mark_closed s m') (log st ++ [Close s]))).
  { intros H. destruct (client_handler_abort s first st H) as (m' & Heq & _).
    exists m'. exact Heq. }
  destruct first as [raw| |].
  - destruct (utf8_decode raw) as [text|] eqn:Hd.
    + destruct (strip text) as [|c r] eqn:Hs.
      * left. apply Hab. left. right. right. exists raw, text. auto.
      * right. exists raw, text. rewrite Hs. repeat split; auto.
    + left. apply Hab. right. exists raw. auto.
  - left. apply Hab. left. right. left. reflexivity.
  - left. apply Hab. left. left. reflexivity.
Qed.


(** X6: the handshake keeps the registry's names clean: if every
    registered name is non-empty with no whitespace at either end, so is
    every name registered after [client_handler], whatever arrived. *)
Theorem client_handler_keeps_names_clean s first st :
  Forall (fun e => clean_name (username e) = true) (active_clients st) ->
  Forall (fun e => clean_name (username e) = true)
         (active_clients (snd (client_handler s first st))).
Proof.
  intros Hall.
  destruct (client_handler_cases s first st)
    as [(m' & Heq)|(raw & text & -> & Hd & Hn & Ho)].
  - rewrite Heq. exact Hall.
  - rewrite (client_handler_ok s raw text st Ho Hd Hn).
    cbv zeta. cbn [snd broadcast_state active_clients].
    unfold kept. apply Forall_forall. intros e He.
    apply list_elem_of_In, List.filter_In in He as [He _].
    apply in_app_or in He as [He|[<-|[]]].
    + rewrite Forall_forall in Hall. apply Hall, list_elem_of_In, He.
    + apply strip_clean, Hn.
Qed.

Lemma client_handler_keeps_names_clean_witness :
  Forall (fun e => clean_name (username e) = true)
         (active_clients
            (snd (client_handler 4%nat (Chunk (pyb " dave ")) lobby_and_guest))).
Proof.
  apply (client_handler_keeps_names_clean 4%nat (Chunk (pyb " dave "))
           lobby_and_guest).
  repeat constructor.
Defined.

(** *** More on one broadcast *)

Lemma sendable_pass_sockets data l : forall m s,
  sendable (pass_sockets (Some data) l m) s = sendable m s.
Proof.
  induction l as [|e l IH]; intros m s; [reflexivity|].
  unfold pass_sockets in *. cbn [foldl]. rewrite IH. apply sendable_touch.
Qed.

(** X7: a broadcast leaves alone every socket that no entry of the
    registry holds: nothing is written to it and it is not closed. *)
Theorem broadcast_leaves_unregistered_alone message s st :
  ~ In s (map esock (active_clients st)) ->
  sockets (snd (send_messages_to_all message st)) !! s = sockets st !! s.
Proof.
  intros H. rewrite send_messages_to_all_spec. cbn [snd broadcast_state sockets].
  rewrite pass_sockets_lookup, (occurrences_notin _ _ H).
  destruct (sockets st !! s) as [ss|]; [|reflexivity].
  cbn [fmap option_fmap option_map]. rewrite socket_after_0. reflexivity.
Qed.

Lemma broadcast_leaves_unregistered_alone_witness :
  sockets (snd (send_messages_to_all (py "alice~hello") lobby_and_guest)) !! 4%nat
  = sockets lobby_and_guest !! 4%nat.
Proof.
  apply (broadcast_leaves_unregistered_alone (py "alice~hello") 4%nat
           lobby_and_guest).
  simpl. intuition discriminate.
Defined.

(** X8: after a broadcast the registry holds only peers that were
    registered before and can still be written to; so a second broadcast,
    of any text that has an encoding, removes nobody. *)
Theorem broadcast_leaves_only_writable message st :
  (forall e, In e (active_clients (snd (send_messages_to_all message st))) ->
     In e (active_clients st)
     /\ writable (snd (send_messages_to_all message st)) (esock e) = true)
  /\ (forall again data,
        utf8_encode again = Some data ->
        active_clients
          (snd (send_messages_to_all again
                  (snd (send_messages_to_all message st)))) =
        active_clients (snd (send_messages_to_all message st))).
Proof.
  rewrite send_messages_to_all_spec. cbn [snd].
  assert (Hk : forall e, In e (active_clients (broadcast_state message st)) ->
     In e (active_clients st)
     /\ writable (broadcast_state message st) (esock e) = true).
  { intros e He. unfold broadcast_state in *. cbn [active_clients] in He.
    unfold kept in He. apply List.filter_In in He as [Hin Hr].
    split; [exact Hin|]. rewrite writable_sendable. cbn [sockets].
    unfold reached in Hr. destruct (utf8_encode message) as [data|]; [|done].
    rewrite sendable_pass_sockets. exact Hr. }
  split; [exact Hk|]. intros again data He.
  rewrite send_messages_to_all_spec. cbn [snd].
  set (st1 := broadcast_state message st) in *.
  unfold broadcast_state at 1. cbn [active_clients]. rewrite He.
  unfold kept. apply List.forallb_filter_id, forallb_forall.
  intros e Hin. destruct (Hk e Hin) as [_ Hw]. exact Hw.
Qed.

(** X9: a text that has no UTF-8 encoding (a lone surrogate) cannot
    be sent to anyone: [send_message_to_client] fails before any write, so
    the broadcast writes nothing, closes the socket of every registered
    peer and empties the registry. *)
Theorem unencodable_message_drops_everyone message st :
  utf8_encode message = None ->
  fst (send_messages_to_all message st) = Ok tt
  /\ attempts (events_of (send_messages_to_all message) st) = []
  /\ active_clients (snd (send_messages_to_all message st)) = []
  /\ forall e, In e (active_clients st) ->
       is_open (snd (send_messages_to_all message st)) (esock e) = false.
Proof.
  intros He. rewrite events_of_broadcast, send_messages_to_all_spec.
  cbn [fst snd]. split; [reflexivity|]. split; [|split].
  - rewrite He. cbn [attempts flat_map app].
    rewrite !attempts_app, attempts_pass_trace_None, attempts_removes.
    reflexivity.
  - unfold broadcast_state. cbn [active_clients]. rewrite He. unfold kept.
    induction (active_clients st) as [|e l IH]; [reflexivity|exact IH].
  - intros e Hin. apply closed_after_broadcast; [exact Hin|].
    rewrite He. reflexivity.
Qed.

Lemma unencodable_message_drops_everyone_witness :
  fst (send_messages_to_all [0xD800] lobby) = Ok tt
  /\ attempts (events_of (send_messages_to_all [0xD800]) lobby) = []
  /\ active_clients (snd (send_messages_to_all [0xD800] lobby)) = []
  /\ forall e, In e (active_clients lobby) ->
       is_open (snd (send_messages_to_all [0xD800] lobby)) (esock e) = false.
Proof.
  apply (unencodable_message_drops_everyone [0xD800] lobby). reflexivity.
Defined.

(** X10: a broadcast never re-opens a socket and never takes back
    what was written: every socket open afterwards was open before, and
    what each socket has received only grows at its end. *)
Theorem broadcast_is_monotone message s st :
  (is_open (snd (send_messages_to_all message st)) s = true ->
   is_open st s = true)
  /\ exists more,
       received (snd (send_messages_to_all message st)) s =
       received st s ++ more.
Proof.
  rewrite send_messages_to_all_spec. cbn [snd]. split.
  - unfold is_open, broadcast_state. cbn [sockets].
    rewrite pass_sockets_lookup.
    destruct (sockets st !! s) as [ss|]; [|done].
    cbn [fmap option_fmap option_map]. unfold socket_after.
    destruct (utf8_encode message); [destruct (negb (closed ss) && negb (broken ss)) eqn:E|];
      cbn [closed]; destruct (closed ss); try done.
  - rewrite received_broadcast.
    destruct (utf8_encode message); [destruct (writable st s)|];
      eexists; try reflexivity; rewrite app_nil_r; reflexivity.
Qed.

(** *** Removal of a registered peer *)

Lemma is_open_broadcast_state message st s :
  is_open (broadcast_state message st) s = true -> is_open st s = true.
Proof.
  unfold is_open, broadcast_state. cbn [sockets].
  rewrite pass_sockets_lookup.
  destruct (sockets st !! s) as [ss|]; [|done].
  cbn [fmap option_fmap option_map]. unfold socket_after.
  destruct (utf8_encode message);
    [destruct (negb (closed ss) && negb (broken ss))|];
    cbn [closed]; destruct (closed ss); done.
Qed.

Lemma sendable_is_open m s l t :
  sendable m s = true -> is_open (Server l m t) s = true.
Proof.
  unfold sendable, is_open. cbn [sockets]. destruct (m !! s); [|done].
  intros H. apply andb_true_iff in H. tauto.
Qed.

Lemma In_drop_first l x e : In e (drop_first l x) -> In e l.
Proof.
  unfold drop_first. revert e. induction l as [|a l IH]; intros e; [done|].
  cbn [remove_first]. destruct (decide (a = x)).
  - intros H. right. exact H.
  - destruct (remove_first x l) as [l'|] eqn:E.
    + cbn [fmap option_fmap option_map]. intros [->|H]; [left; reflexivity|].
      right. apply IH. exact H.
    + cbn [fmap option_fmap option_map]. auto.
Qed.

Lemma registry_remove_spec s st :
  registry_remove s st =
  (Ok tt, Server (without s (active_clients st)) (sockets st)
                 (log st ++ Acquire :: removal_trace s (active_clients st)
                         ++ [Release])).
Proof.
  unfold registry_remove, with_lock, bind, try_finally, get_clients, emit,
    without, removal_trace.
  cbn [fst snd active_clients sockets log].
  destruct (find_by_sock s (active_clients st)) as [found|].
  - rewrite list_remove_spec. cbn [active_clients sockets log].
    rewrite <- ?app_assoc. reflexivity.
  - unfold ret. cbn [active_clients sockets log].
    rewrite <- ?app_assoc. reflexivity.
Qed.

(** The state [remove_client] ends in. *)
Lemma remove_client_spec s name st :
  remove_client s name st =
  (Ok tt,
   broadcast_state (left_msg name)
     (Server (without s (active_clients st)) (mark_closed s (sockets st))
             (log st ++ Acquire :: removal_trace s (active_clients st)
                     ++ [Release; Close s]))).
Proof.
  unfold remove_client, bind, try_except.
  rewrite registry_remove_spec, close_spec, send_messages_to_all_spec.
  cbn [active_clients sockets log]. rewrite <- !app_assoc. cbn [app].
  rewrite <- !app_assoc. reflexivity.
Qed.

Lemma In_without s l e : In e (without s l) -> In e l.
Proof.
  unfold without. destruct (find_by_sock s l); [apply In_drop_first|auto].
Qed.

Lemma sendable_closed s m : sendable (mark_closed s m) s = false.
Proof.
  unfold sendable, mark_closed. destruct (m !! s) as [ss|] eqn:E.
  - rewrite lookup_insert_eq. reflexivity.
  - rewrite E. reflexivity.
Qed.

Lemma received_mark_closed l s m t s' :
  received (Server l (mark_closed s m) t) s' =
  match m !! s' with Some ss => wire ss | None => [] end.
Proof.
  unfold received. cbn [sockets].
  pose proof (wire_mark_closed s m s') as H.
  destruct (mark_closed s m !! s'), (m !! s'); simpl in H; congruence.
Qed.

Lemma remove_client_post s name st :
  fst (remove_client s name st) = Ok tt
  /\ is_open (snd (remove_client s name st)) s = false
  /\ (forall e, In e (active_clients (snd (remove_client s name st))) ->
        esock e <> s /\ In e (active_clients st))
  /\ received (snd (remove_client s name st)) s = received st s.
Proof.
  rewrite remove_client_spec. cbn [fst snd].
  set (st2 := Server _ (mark_closed s (sockets st)) _).
  split; [reflexivity|]. split; [|split].
  - destruct (is_open (broadcast_state (left_msg name) st2) s) eqn:E;
      [|reflexivity].
    apply is_open_broadcast_state in E. subst st2.
    rewrite is_open_mark_closed in E. discriminate.
  - intros e He. unfold broadcast_state in He. cbn [active_clients] in He.
    unfold kept in He. apply List.filter_In in He as [Hin Hr]. split.
    + intros Heq. unfold reached in Hr.
      destruct (utf8_encode (left_msg name)); [|done].
      subst st2. cbn [sockets] in Hr. rewrite Heq, sendable_closed in Hr.
      discriminate.
    + subst st2. cbn [active_clients] in Hin. exact (In_without _ _ _ Hin).
  - rewrite received_broadcast.
    assert (Hw : writable st2 s = false).
    { subst st2. rewrite writable_sendable. apply sendable_closed. }
    rewrite Hw. subst st2.
    destruct (utf8_encode (left_msg name)); apply received_mark_closed.
Qed.


Lemma find_by_sock_Some s l found :
  find_by_sock s l = Some found -> esock found = s /\ In found l.
Proof.
  unfold find_by_sock. intros H. apply List.find_some in H as [Hin Hb].
  split; [|exact Hin]. apply bool_decide_eq_true in Hb. exact Hb.
Qed.

Lemma drop_first_cons a l x :
  drop_first (a :: l) x = if decide (a = x) then l else a :: drop_first l x.
Proof.
  unfold drop_first. cbn [remove_first]. destruct (decide (a = x)); [done|].
  destruct (remove_first x l); reflexivity.
Qed.

Lemma In_drop_first_other l x e : In e l -> e <> x -> In e (drop_first l x).
Proof.
  intros Hin Hne. induction l as [|a l IH]; [done|].
  rewrite drop_first_cons. destruct (decide (a = x)) as [->|Hax].
  - destruct Hin as [->|Hin]; [done|exact Hin].
  - destruct Hin as [->|Hin]; [left; reflexivity|right; auto].
Qed.

Lemma occurrences_drop_first l x s' :
  esock x <> s' -> occurrences s' (drop_first l x) = occurrences s' l.
Proof.
  intros Hne. induction l as [|a l IH]; [reflexivity|].
  rewrite drop_first_cons. destruct (decide (a = x)) as [->|Hax].
  - rewrite occurrences_cons. destruct (decide (esock x = s')); done.
  - rewrite !occurrences_cons, IH. reflexivity.
Qed.

Lemma without_other s l e :
  In e l -> esock e <> s ->
  In e (without s l)
  /\ occurrences (esock e) (without s l) = occurrences (esock e) l.
Proof.
  intros Hin Hne. unfold without.
  destruct (find_by_sock s l) as [found|] eqn:E; [|auto].
  apply find_by_sock_Some in E as [Hs _]. split.
  - apply In_drop_first_other; [exact Hin|]. intros ->. auto.
  - apply occurrences_drop_first. congruence.
Qed.

(** X12: the departure announcement [SERVER~name has left the chat]
    is written to every other registered peer that can be written to, and
    those peers stay registered. *)
Theorem departure_is_announced_to_others s name data e st :
  utf8_encode (left_msg name) = Some data ->
  In e (active_clients st) -> esock e <> s -> writable st (esock e) = true ->
  In e (active_clients (snd (remove_client s name st)))
  /\ received (snd (remove_client s name st)) (esock e) =
     received st (esock e)
     ++ replicate (occurrences (esock e) (active_clients st)) data.
Proof.
  intros He Hin Hne Hw. rewrite remove_client_spec. cbn [snd].
  destruct (without_other s _ e Hin Hne) as [Hin' Hocc].
  assert (Hs : sendable (mark_closed s (sockets st)) (esock e) = true).
  { rewrite sendable_mark_closed by (right; congruence). exact Hw. }
  split.
  - unfold broadcast_state. cbn [active_clients sockets]. unfold kept.
    apply List.filter_In. split; [exact Hin'|]. rewrite He. exact Hs.
  - rewrite received_broadcast, He, writable_sendable.
    cbn [sockets active_clients]. rewrite Hs, Hocc, received_mark_closed.
    reflexivity.
Qed.

Lemma departure_is_announced_to_others_witness :
  In bob (active_clients (snd (remove_client 1%nat (py "alice") lobby)))
  /\ received (snd (remove_client 1%nat (py "alice") lobby)) (esock bob) =
     received lobby (esock bob)
     ++ replicate (occurrences (esock bob) (active_clients lobby))
                  (pyb "SERVER~alice has left the chat").
Proof.
  apply (departure_is_announced_to_others 1%nat (py "alice")
           (pyb "SERVER~alice has left the chat") bob lobby).
  - vm_compute. reflexivity.
  - simpl. right. left. reflexivity.
  - discriminate.
  - reflexivity.
Defined.

(** *** The listener from start to end *)

Lemma listen_loop_cons s name a rest st :
  listen_loop s name (a :: rest) st =
  if is_open st s then
    match a with
    | Chunk [] => (Ok tt, st)
    | Chunk data =>
      listen_loop s name rest
        (broadcast_state (final_msg name (decode_or_repr data)) st)
    | Reset => (Ok tt, st)
    | Silence =>
      match timeout <$> (sockets st !! s) with
      | Some true => (Ok tt, st)
      | _ => (Blocked, st)
      end
    end
  else (Ok tt, st).
Proof.
  cbn [listen_loop]. unfold bind, try_except.
  unfold is_open, recv. destruct (sockets st !! s) as [ss|]; [|reflexivity].
  destruct (closed ss); [reflexivity|]. cbn [negb].
  destruct a as [data| |].
  - unfold ret. destruct data as [|b data]; [reflexivity|].
    rewrite send_messages_to_all_spec. reflexivity.
  - reflexivity.
  - cbn [fmap option_fmap option_map]. destruct (timeout ss); reflexivity.
Qed.

Lemma listen_loop_result s name script : forall st,
  fst (listen_loop s name script st) = Ok tt
  \/ fst (listen_loop s name script st) = Blocked.
Proof.
  induction script as [|a rest IH]; intros st; [right; reflexivity|].
  rewrite listen_loop_cons. destruct (is_open st s); [|left; reflexivity].
  destruct a as [[|b data]| |]; try (left; reflexivity).
  - apply IH.
  - destruct (timeout <$> (sockets st !! s)) as [[|]|]; auto.
Qed.

(** X13: a listener never raises. Either it is still waiting in
    [recv], or it has returned, and then it has gone through
    [remove_client]: its socket is closed and no entry of the registry
    holds it. *)
Theorem listen_for_messages_cleans_up s name script st :
  fst (listen_for_messages s name script st) = Blocked
  \/ (fst (listen_for_messages s name script st) = Ok tt
      /\ is_open (snd (listen_for_messages s name script st)) s = false
      /\ forall e,
           In e (active_clients (snd (listen_for_messages s name script st))) ->
           esock e <> s).
Proof.
  unfold listen_for_messages, try_finally, try_except.
  destruct (listen_loop_result s name script st) as [H|H];
    destruct (listen_loop s name script st) as [r st1]; cbn [fst] in H; subst r.
  - right. destruct (remove_client_post s name st1) as (Hr & Ho & Hk & _).
    destruct (remove_client s name st1) as [r st2]. cbn [fst snd] in *.
    subst r. split; [reflexivity|]. split; [exact Ho|].
    intros e He. exact (proj1 (Hk e He)).
  - left. reflexivity.
Qed.




(** X15: a registered sender whose own connection cannot be written
    to is dropped by its own message. The broadcast of the message closes
    the sender's socket, so the next [recv] fails whatever the network
    has, and the listener ends with [remove_client] run from the state the
    broadcast left. *)
Theorem sender_with_dead_socket_is_dropped s name data a rest e st :
  In e (active_clients st) -> esock e = s ->
  is_open st s = true -> writable st s = false -> data <> [] ->
  listen_for_messages s name (Chunk data :: a :: rest) st =
  remove_client s name
    (snd (send_messages_to_all (final_msg name (decode_or_repr data)) st))
  /\ fst (listen_for_messages s name (Chunk data :: a :: rest) st) = Ok tt
  /\ ~ In e (active_clients
               (snd (send_messages_to_all
                       (final_msg name (decode_or_repr data)) st))).
Proof.
  intros Hin Hs Ho Hw Hd. rewrite send_messages_to_all_spec. cbn [snd].
  set (st1 := broadcast_state (final_msg name (decode_or_repr data)) st).
  assert (Hr : reached (utf8_encode (final_msg name (decode_or_repr data)))
                       (sockets st) (esock e) = false).
  { unfold reached. destruct (utf8_encode _); [|reflexivity].
    rewrite Hs, <- writable_sendable. exact Hw. }
  assert (Hc : is_open st1 s = false).
  { subst st1. rewrite <- Hs. apply closed_after_broadcast; assumption. }
  assert (Hl : listen_loop s name (Chunk data :: a :: rest) st = (Ok tt, st1)).
  { rewrite listen_loop_cons, Ho. destruct data as [|b data]; [done|].
    rewrite listen_loop_cons. fold st1. rewrite Hc. reflexivity. }
  assert (Heq : listen_for_messages s name (Chunk data :: a :: rest) st =
                remove_client s name st1).
  { unfold listen_for_messages, try_finally, try_except. rewrite Hl.
    rewrite remove_client_spec. reflexivity. }
  split; [exact Heq|]. split.
  - rewrite Heq, remove_client_spec. reflexivity.
  - subst st1. unfold broadcast_state. cbn [active_clients]. unfold kept.
    rewrite List.filter_In, Hr. intros [_ H]. discriminate.
Qed.

Lemma sender_with_dead_socket_is_dropped_witness :
  listen_for_messages 2%nat (py "bob") (Chunk (pyb "hi") :: Silence :: [])
    lobby_bob_down =
  remove_client 2%nat (py "bob")
    (snd (send_messages_to_all
            (final_msg (py "bob") (decode_or_repr (pyb "hi"))) lobby_bob_down))
  /\ fst (listen_for_messages 2%nat (py "bob")
            (Chunk (pyb "hi") :: Silence :: []) lobby_bob_down) = Ok tt
  /\ ~ In bob (active_clients
                 (snd (send_messages_to_all
                         (final_msg (py "bob") (decode_or_repr (pyb "hi")))
                         lobby_bob_down))).
Proof.
  apply (sender_with_dead_socket_is_dropped 2%nat (py "bob") (pyb "hi") Silence
           [] bob lobby_bob_down).
  - simpl. right. left. reflexivity.
  - reflexivity.
  - reflexivity.
  - reflexivity.
  - discriminate.
Defined.

(** *** Shutdown *)

Lemma close_all_spec l : forall st,
  close_all l st =
  (Ok tt, Server (active_clients st)
                 (foldl (fun m e => mark_closed (esock e) m) (sockets st) l)
                 (log st ++ map (fun e => Close (esock e)) l)).
Proof.
  induction l as [|e l IH]; intros st.
  - cbn [close_all foldl map]. rewrite app_nil_r. destruct st; reflexivity.
  - cbn [close_all foldl map]. unfold bind, try_except.
    rewrite close_spec, IH. cbn [active_clients sockets log].
    rewrite <- app_assoc. reflexivity.
Qed.

Lemma main_shutdown_spec st :
  main_shutdown st =
  (Ok tt, Server []
                 (foldl (fun m e => mark_closed (esock e) m) (sockets st)
                        (active_clients st))
                 (log st ++ Acquire
                    :: map (fun e => Close (esock e)) (active_clients st)
                    ++ [Release])).
Proof.
  unfold main_shutdown, with_lock, bind, try_finally, get_clients, emit,
    set_clients. cbn [fst snd active_clients sockets log].
  rewrite close_all_spec. cbn [active_clients sockets log].
  rewrite <- !app_assoc. reflexivity.
Qed.

Lemma closed_all_wire l : forall m s,
  wire <$> (foldl (fun m e => mark_closed (esock e) m) m l !! s)
  = wire <$> (m !! s).
Proof.
  induction l as [|e l IH]; intros m s; [reflexivity|].
  cbn [foldl]. rewrite IH. apply wire_mark_closed.
Qed.

Lemma mark_closed_other s m s' : s <> s' -> mark_closed s m !! s' = m !! s'.
Proof.
  intros H. unfold mark_closed. destruct (m !! s); [|reflexivity].
  apply lookup_insert_ne. exact H.
Qed.

Lemma closed_all_other l : forall m s,
  ~ In s (map esock l) ->
  foldl (fun m e => mark_closed (esock e) m) m l !! s = m !! s.
Proof.
  induction l as [|e l IH]; intros m s H; [reflexivity|].
  cbn [foldl]. cbn [map] in H. rewrite IH by (intros Hin; apply H; right; exact Hin).
  apply mark_closed_other. intros Heq. apply H. left. exact Heq.
Qed.

Lemma lookup_closed_stays s' m s ss :
  mark_closed s' m !! s = Some ss -> closed ss = false ->
  exists ss0, m !! s = Some ss0 /\ closed ss0 = false.
Proof.
  intros Hl Hc. destruct (decide (s' = s)) as [->|Hne].
  - unfold mark_closed in Hl. destruct (m !! s) as [ss0|] eqn:E.
    + rewrite lookup_insert_eq in Hl. injection Hl as <-. discriminate.
    + rewrite E in Hl. discriminate.
  - rewrite mark_closed_other in Hl by assumption. eauto.
Qed.

Lemma closed_all_stays l : forall m s,
  is_open (Server [] (foldl (fun m e => mark_closed (esock e) m) m l) []) s = true ->
  is_open (Server [] m []) s = true.
Proof.
  induction l as [|e l IH]; intros m s H; [exact H|].
  cbn [foldl] in H. apply IH in H. unfold is_open in *. cbn [sockets] in *.
  destruct (mark_closed (esock e) m !! s) as [ss|] eqn:E; [|discriminate].
  apply negb_true_iff in H.
  destruct (lookup_closed_stays _ _ _ ss E H) as (ss0 & -> & Hc).
  rewrite Hc. reflexivity.
Qed.

Lemma closed_all_closed l : forall m e,
  In e l ->
  is_open (Server [] (foldl (fun m e => mark_closed (esock e) m) m l) []) (esock e)
  = false.
Proof.
  induction l as [|a l IH]; intros m e Hin; [done|].
  cbn [foldl]. destruct Hin as [->|Hin]; [|apply IH, Hin].
  destruct (is_open _ (esock e)) eqn:E; [|reflexivity].
  apply closed_all_stays in E. rewrite is_open_mark_closed in E. discriminate.
Qed.

Lemma attempts_closes l : attempts (map (fun e => Close (esock e)) l) = [].
Proof. induction l as [|e l IH]; [reflexivity|exact IH]. Qed.

(** X16: the shutdown block of [main] returns normally, empties the
    registry and closes the socket of every peer that was registered; it
    writes to nobody, changes what no socket has received, and leaves the
    sockets that were not registered as they are. *)
Theorem main_shutdown_clears_registry st :
  fst (main_shutdown st) = Ok tt
  /\ active_clients (snd (main_shutdown st)) = []
  /\ (forall e, In e (active_clients st) ->
        is_open (snd (main_shutdown st)) (esock e) = false)
  /\ attempts (events_of main_shutdown st) = []
  /\ (forall s, received (snd (main_shutdown st)) s = received st s)
  /\ (forall s, ~ In s (map esock (active_clients st)) ->
        sockets (snd (main_shutdown st)) !! s = sockets st !! s).
Proof.
  assert (Hev : events_of main_shutdown st =
     Acquire :: map (fun e => Close (esock e)) (active_clients st) ++ [Release]).
  { eapply events_of_spec; [apply main_shutdown_spec | reflexivity]. }
  rewrite Hev, main_shutdown_spec. cbn [fst snd active_clients sockets].
  split; [reflexivity|]. split; [reflexivity|]. split; [|split; [|split]].
  - intros e Hin.
    pose proof (closed_all_closed (active_clients st) (sockets st) e Hin) as H.
    unfold is_open in *. cbn [sockets] in *. exact H.
  - cbn [attempts flat_map app]. rewrite attempts_app, attempts_closes.
    reflexivity.
  - intros s. unfold received. cbn [sockets].
    pose proof (closed_all_wire (active_clients st) (sockets st) s) as H.
    destruct (foldl _ _ _ !! s), (sockets st !! s); simpl in H; congruence.
  - intros s Hs. apply closed_all_other, Hs.
Qed.

(** *** The operator console, all lines *)

Lemma acquisitions_app t1 t2 :
  acquisitions (t1 ++ t2) = (acquisitions t1 + acquisitions t2)%nat.
Proof. unfold acquisitions. rewrite List.filter_app, length_app. reflexivity. Qed.

Lemma acquisitions_no_lock t :
  forallb (fun ev => negb (is_lock_event ev)) t = true -> acquisitions t = 0%nat.
Proof.
  induction t as [|ev t IH]; [reflexivity|]. cbn [forallb]. intros H.
  apply andb_true_iff in H as [Hev Ht]. unfold acquisitions in *.
  cbn [List.filter]. destruct ev; try discriminate; cbn [length]; auto.
Qed.

Lemma console_line_spec msg st :
  console_line msg st =
  (Ok tt, if blank msg then st
          else broadcast_state (py "SERVER~" ++ strip msg) st).
Proof.
  unfold console_line, blank. destruct (strip msg); [reflexivity|].
  apply send_messages_to_all_spec.
Qed.

Lemma console_loop_spec lines : forall st,
  exists st' t,
    console_loop lines st = (Raise EOFError, st')
    /\ log st' = log st ++ t
    /\ acquisitions t = length (List.filter (fun m => negb (blank m)) lines)
    /\ (forallb blank lines = true -> st' = st).
Proof.
  induction lines as [|msg rest IH]; intros st.
  - exists st, []. cbn. rewrite app_nil_r. auto.
  - cbn [console_loop]. unfold bind. rewrite console_line_spec.
    cbn [List.filter forallb]. destruct (blank msg) eqn:Hb; cbn [negb].
    + destruct (IH st) as (st' & t & Heq & Hl & Hn & Hall).
      exists st', t. auto.
    + destruct (IH (broadcast_state (py "SERVER~" ++ strip msg) st))
        as (st' & t & Heq & Hl & Hn & _).
      exists st', (Acquire
                   :: (Copy
                       :: pass_trace (utf8_encode (py "SERVER~" ++ strip msg))
                            (sockets st) (active_clients st)
                       ++ map Remove
                            (unreachable
                               (utf8_encode (py "SERVER~" ++ strip msg))
                               (sockets st) (active_clients st)))
                   ++ [Release] ++ t).
      split; [exact Heq|]. split; [|split; [|discriminate]].
      * rewrite Hl. unfold broadcast_state. cbn [log].
        rewrite <- !app_assoc. cbn [app]. rewrite <- !app_assoc. reflexivity.
      * change (Acquire :: ?x) with ([Acquire] ++ x).
        rewrite !acquisitions_app.
        rewrite (acquisitions_no_lock (Copy :: _ ++ map Remove _)), Hn;
          [reflexivity|].
        cbn [forallb is_lock_event negb andb].
        rewrite forallb_app, pass_trace_no_lock, removes_no_lock. reflexivity.
Qed.


(** *** The join announcement and the other peers *)

Lemma received_with_timeout l s t m lg s' :
  received (Server l (with_timeout s t m) lg) s' =
  match m !! s' with Some ss => wire ss | None => [] end.
Proof.
  unfold received. cbn [sockets].
  pose proof (wire_with_timeout s t m s') as H.
  destruct (with_timeout s t m !! s'), (m !! s'); simpl in H; congruence.
Qed.

(** X18: after a handshake that yields a name, every peer that was
    registered and can be written to has been written the announcement
    [SERVER~name joined the chat] and is still registered. *)
Theorem join_is_announced_to_peers s raw text e st :
  is_open st s = true -> utf8_decode raw = Some text -> strip text <> [] ->
  In e (active_clients st) -> esock e <> s -> writable st (esock e) = true ->
  exists data,
    utf8_encode (joined_msg (strip text)) = Some data
    /\ In e (active_clients (snd (client_handler s (Chunk raw) st)))
    /\ received (snd (client_handler s (Chunk raw) st)) (esock e) =
       received st (esock e)
       ++ replicate (occurrences (esock e) (active_clients st)) data.
Proof.
  intros Ho Hd Hn Hin Hne Hw.
  destruct (joined_msg_encodes raw text Hd) as [data He].
  exists data. split; [exact He|].
  rewrite (client_handler_ok s raw text st Ho Hd Hn). cbv zeta. cbn [snd].
  set (m1 := with_timeout s false (with_timeout s true (sockets st))).
  assert (Hs1 : sendable m1 (esock e) = true).
  { subst m1. rewrite !sendable_with_timeout. exact Hw. }
  split.
  - unfold broadcast_state. cbn [active_clients sockets]. unfold kept.
    apply List.filter_In. split.
    + apply in_or_app. left. exact Hin.
    + rewrite He. exact Hs1.
  - change (received (broadcast_state (joined_msg (strip text))
              (Server (active_clients st ++ [Entry (strip text) s]) m1
                      (log st ++ [Acquire; Release]))) (esock e)
            = received st (esock e)
              ++ replicate (occurrences (esock e) (active_clients st)) data).
    rewrite received_broadcast, He, writable_sendable.
    cbn [sockets active_clients]. rewrite Hs1.
    rewrite occurrences_app, occurrences_cons. cbn [esock].
    destruct (decide (s = esock e)) as [Heq|_]; [congruence|].
    cbn [occurrences List.filter length]. rewrite Nat.add_0_r.
    f_equal. subst m1. rewrite received_with_timeout.
    change (match with_timeout s true (sockets st) !! esock e with
            | Some ss => wire ss
            | None => []
            end)
      with (received (Server [] (with_timeout s true (sockets st)) []) (esock e)).
    rewrite received_with_timeout. reflexivity.
Qed.

Lemma join_is_announced_to_peers_witness :
  exists data,
    utf8_encode (joined_msg (strip (py " dave "))) = Some data
    /\ In bob (active_clients
                 (snd (client_handler 4%nat (Chunk (pyb " dave ")) lobby_and_guest)))
    /\ received (snd (client_handler 4%nat (Chunk (pyb " dave ")) lobby_and_guest))
                (esock bob) =
       received lobby_and_guest (esock bob)
       ++ replicate (occurrences (esock bob) (active_clients lobby_and_guest)) data.
Proof.
  apply (join_is_announced_to_peers 4%nat (pyb " dave ") (py " dave ") bob
           lobby_and_guest).
  - reflexivity.
  - vm_compute. reflexivity.
  - vm_compute. discriminate.
  - simpl. right. left. reflexivity.
  - discriminate.
  - reflexivity.
Defined.

(** ** Further properties: the client window *)

Import Gui.

Lemma net_sendall_sent s data m m' g0 :
  net_sendall s data m = Some m' ->
  forall s',
    sent (set_net m' g0) s' =
    sent (set_net m g0) s' ++ (if decide (s = s') then [data] else []).
Proof.
  unfold net_sendall, sent. cbn [net set_net].
  destruct (m !! s) as [ss|] eqn:E; [|discriminate].
  destruct (negb (closed ss) && negb (broken ss)); [|discriminate].
  intros H s'. injection H as <-. destruct (decide (s = s')) as [<-|Hne].
  - rewrite lookup_insert_eq, E. reflexivity.
  - rewrite lookup_insert_ne by assumption. rewrite app_nil_r. reflexivity.
Qed.

Lemma net_close_sent s m g0 s' :
  sent (set_net (net_close s m) g0) s' = sent (set_net m g0) s'.
Proof.
  unfold sent. cbn [net set_net].
  pose proof (wire_mark_closed s m s') as H.
  change (mark_closed s m) with (net_close s m) in H.
  destruct (net_close s m !! s'), (m !! s'); simpl in H; congruence.
Qed.

Lemma send_text_Some s text m m' :
  send_text s text m = Some m' ->
  exists data, utf8_encode text = Some data /\ net_sendall s data m = Some m'.
Proof.
  unfold send_text. destruct (utf8_encode text) as [data|]; [|discriminate].
  intros H. exists data. auto.
Qed.

(** X19: [send_message] writes at most one payload, and only when the
    client is connected and the message field holds more than whitespace:
    the payload is the encoding of the stripped text. In every other case
    nothing is written to any socket. *)
Theorem send_message_writes_stripped_text g s :
  sent (send_message g) s = sent g s
  \/ (connected g = true /\ client g = Some s
      /\ strip (message_textbox g) <> []
      /\ exists data,
           utf8_encode (strip (message_textbox g)) = Some data
           /\ sent (send_message g) s = sent g s ++ [data]).
Proof.
  unfold send_message.
  destruct (connected g) eqn:Hc; [|left; reflexivity].
  destruct (client g) as [c|] eqn:Hcl; [|left; reflexivity].
  destruct (strip (message_textbox g)) as [|x r] eqn:Hs; [left; reflexivity|].
  destruct (send_text c (x :: r) (net g)) as [m'|] eqn:Hsend.
  - destruct (send_text_Some _ _ _ _ Hsend) as (data & He & Hn).
    pose proof (net_sendall_sent c data (net g) m' g Hn s) as H.
    change (sent (set_message_textbox _ (set_net m' g)) s)
      with (sent (set_net m' g) s).
    change (sent (set_net (net g) g) s) with (sent g s) in H.
    destruct (decide (c = s)) as [->|Hne].
    + right. repeat split; try done. exists data. split; [exact He|exact H].
    + left. rewrite H. apply app_nil_r.
  - left.
    change (sent (on_disconnected_ui_update _) s)
      with (sent (set_net (net_close c (net g)) g) s).
    apply net_close_sent.
Qed.

(** X20: when the write of [send_message] fails, the client ends
    disconnected: the socket is closed, [client] and [connected] are
    reset, the controls are back in their disconnected layout, the
    failure is reported in the message box, and the text typed stays in
    the message field. *)
Theorem send_message_failure_disconnects g s :
  connected g = true -> client g = Some s ->
  strip (message_textbox g) <> [] ->
  send_text s (strip (message_textbox g)) (net g) = None ->
  client (send_message g) = None
  /\ connected (send_message g) = false
  /\ widgets (send_message g) = Controls true true false false false
  /\ net (send_message g) = net_close s (net g)
  /\ message_textbox (send_message g) = message_textbox g
  /\ message_box (send_message g) =
     message_box g
     ++ [py "[SYSTEM] Failed to send message. Server may be offline."].
Proof.
  intros Hc Hcl Hs Hf. unfold send_message. rewrite Hc, Hcl.
  destruct (strip (message_textbox g)) as [|x r]; [done|].
  rewrite Hf. repeat split.
Qed.

Lemma send_message_failure_disconnects_witness :
  client (send_message
            (Gui (Some 1%nat) true [] (py " hi ") []
                 (Controls false false true true true) []
                 {[1%nat := SocketState false true false []]} [] false)) = None
  /\ connected (send_message
                  (Gui (Some 1%nat) true [] (py " hi ") []
                       (Controls false false true true true) []
                       {[1%nat := SocketState false true false []]} [] false))
     = false.
Proof.
  destruct (send_message_failure_disconnects
              (Gui (Some 1%nat) true [] (py " hi ") []
                   (Controls false false true true true) []
                   {[1%nat := SocketState false true false []]} [] false)
              1%nat) as (H1 & H2 & _).
  - reflexivity.
  - reflexivity.
  - vm_compute. discriminate.
  - vm_compute. reflexivity.
  - split; [exact H1 | exact H2].
Defined.

Lemma sent_insert_fresh s ss g s' :
  net g !! s = None -> wire ss = [] ->
  sent (set_net (<[s := ss]> (net g)) g) s' = sent g s'.
Proof.
  intros Hf Hw. unfold sent. cbn [net set_net].
  destruct (decide (s = s')) as [<-|Hne].
  - rewrite lookup_insert_eq, Hf. exact Hw.
  - rewrite lookup_insert_ne by assumption. reflexivity.
Qed.

Lemma connect_outcome s d g :
  net g !! s = None ->
  (client (connect s d g) = client g
   /\ connected (connect s d g) = connected g
   /\ widgets (connect s d g) = widgets g
   /\ threads (connect s d g) = threads g
   /\ message_box (connect s d g) = message_box g
   /\ (forall s', sent (connect s d g) s' = sent g s')
   /\ exists dlg, dialogs (connect s d g) = dialogs g ++ [dlg])
  \/ (strip (username_textbox g) <> []
      /\ d = Established true
      /\ client (connect s d g) = Some s
      /\ connected (connect s d g) = true
      /\ widgets (connect s d g) = Controls false false true true true
      /\ threads (connect s d g) = threads g ++ [s]
      /\ message_box (connect s d g) =
         message_box g
         ++ [py "[SYSTEM] Connected to server as '"
             ++ strip (username_textbox g) ++ py "'"]
      /\ dialogs (connect s d g) = dialogs g
      /\ exists data,
           utf8_encode (strip (username_textbox g)) = Some data
           /\ sent (connect s d g) s = [data]).
Proof.
  intros Hf. unfold connect.
  destruct (connected g && bool_decide (client g <> None)).
  { left. repeat split. eexists. reflexivity. }
  destruct (strip (username_textbox g)) as [|x r] eqn:Hs.
  { left. repeat split. eexists. reflexivity. }
  destruct d as [|up].
  { left. repeat split. eexists. reflexivity. }
  cbv zeta.
  set (m := <[s := SocketState false (negb up) false []]> (net g)).
  destruct (send_text s (x :: r) m) as [m'|] eqn:Hsend.
  - right. destruct (send_text_Some _ _ _ _ Hsend) as (data & He & Hn).
    assert (Hup : up = true).
    { unfold net_sendall in Hn. subst m. rewrite lookup_insert_eq in Hn.
      cbn [closed broken negb andb] in Hn. destruct up; [reflexivity|discriminate]. }
    subst up. repeat split; try done. exists data. split; [exact He|].
    pose proof (net_sendall_sent s data m m' g Hn s) as H.
    change (sent (start_receiver s _) s) with (sent (set_net m' g) s).
    rewrite H. subst m.
    rewrite (sent_insert_fresh s (SocketState false (negb true) false []) g s
               Hf eq_refl).
    destruct (decide (s = s)); [|done].
    unfold sent. rewrite Hf. reflexivity.
  - left. repeat split; [|eexists; reflexivity].
    intros s'.
    change (sent (popup _ (set_net (net_close s m) g)) s')
      with (sent (set_net (net_close s m) g) s').
    rewrite net_close_sent. subst m. apply sent_insert_fresh; [exact Hf|reflexivity].
Qed.

(** X21: [connect], called with a socket that is new. Either it
    changes nothing but for one dialog shown (already connected, name
    empty once stripped, connection refused, first write failed: then
    nothing has been written, and the link, the controls and the threads
    are as before); or it succeeds, and then the name field held more than
    whitespace, the one payload written on the new socket is the encoding
    of the stripped name, the client is connected on that socket, the
    controls are in their connected layout and one receiver thread has
    been started on it. *)
Theorem connect_cases s d g :
  net g !! s = None ->
  (client (connect s d g) = client g
   /\ connected (connect s d g) = connected g
   /\ widgets (connect s d g) = widgets g
   /\ threads (connect s d g) = threads g
   /\ message_box (connect s d g) = message_box g
   /\ (forall s', sent (connect s d g) s' = sent g s')
   /\ exists dlg, dialogs (connect s d g) = dialogs g ++ [dlg])
  \/ (strip (username_textbox g) <> []
      /\ d = Established true
      /\ client (connect s d g) = Some s
      /\ connected (connect s d g) = true
      /\ widgets (connect s d g) = Controls false false true true true
      /\ threads (connect s d g) = threads g ++ [s]
      /\ message_box (connect s d g) =
         message_box g
         ++ [py "[SYSTEM] Connected to server as '"
             ++ strip (username_textbox g) ++ py "'"]
      /\ dialogs (connect s d g) = dialogs g
      /\ exists data,
           utf8_encode (strip (username_textbox g)) = Some data
           /\ sent (connect s d g) s = [data]).
Proof. apply connect_outcome. Qed.

Lemma connect_cases_witness :
  connected (connect 1%nat (Established true) (type_username (py " alice ") start))
  = true
  /\ sent (connect 1%nat (Established true) (type_username (py " alice ") start))
          1%nat = [pyb "alice"].
Proof.
  destruct (connect_cases 1%nat (Established true)
              (type_username (py " alice ") start))
    as [(_ & Hc & _)|(_ & _ & _ & Hc & _ & _ & _ & _ & data & He & Hs)].
  - reflexivity.
  - vm_compute in Hc. discriminate Hc.
  - split; [exact Hc|]. rewrite Hs. vm_compute in He.
    injection He as <-. reflexivity.
Defined.

Lemma receive_loop_keeps s script : forall g,
  client (snd (receive_loop s script g)) = client g
  /\ connected (snd (receive_loop s script g)) = connected g
  /\ widgets (snd (receive_loop s script g)) = widgets g
  /\ net (snd (receive_loop s script g)) = net g
  /\ (fst (receive_loop s script g) = Ok tt
      \/ fst (receive_loop s script g) = Blocked)
  /\ (ends script = true -> fst (receive_loop s script g) = Ok tt).
Proof.
  induction script as [|a rest IH]; intros g.
  - cbn. repeat split; auto. discriminate.
  - cbn [receive_loop ends]. destruct (net g !! s) as [ss|] eqn:E.
    2:{ cbn. repeat split; auto. }
    destruct (closed ss).
    { cbn. repeat split; auto. }
    destruct a as [[|b data]| |].
    + cbn. repeat split; auto.
    + destruct (show_cases (decode_or_repr (b :: data)))
        as [[_ ->]|(n & c & _ & _ & ->)].
      * destruct (IH (add_message (py "[SERVER] " ++ decode_or_repr (b :: data)) g))
          as (H1 & H2 & H3 & H4 & H5 & H6). auto 10.
      * destruct (IH (add_message (py "[" ++ n ++ py "] " ++ c) g))
          as (H1 & H2 & H3 & H4 & H5 & H6). auto 10.
    + cbn. repeat split; auto.
    + destruct (timeout ss); cbn; repeat split; auto; discriminate.
Qed.

(** X22: the client's receive thread writes nothing and closes
    nothing, and never raises. Either it is still waiting in [recv], or it
    has returned and left the client disconnected: [client] and
    [connected] reset, the controls in their disconnected layout. It does
    return when the server closes the connection or the connection
    fails. *)
Theorem client_listener_cleans_up s script g :
  net (snd (listen_for_messages_from_server s script g)) = net g
  /\ (fst (listen_for_messages_from_server s script g) = Blocked
      \/ (fst (listen_for_messages_from_server s script g) = Ok tt
          /\ client (snd (listen_for_messages_from_server s script g)) = None
          /\ connected (snd (listen_for_messages_from_server s script g)) = false
          /\ widgets (snd (listen_for_messages_from_server s script g)) =
             Controls true true false false false))
  /\ (ends script = true ->
      fst (listen_for_messages_from_server s script g) = Ok tt).
Proof.
  unfold listen_for_messages_from_server.
  destruct (receive_loop_keeps s script g) as (_ & _ & _ & Hn & Hr & He).
  destruct (receive_loop s script g) as [r g']. cbn [fst snd] in *.
  destruct Hr as [-> | ->]; cbn [fst snd].
  - split; [exact Hn|]. split; [|reflexivity]. right. repeat split.
  - split; [exact Hn|]. split; [left; reflexivity|exact He].
Qed.

(** X23: [disconnect] always leaves the client disconnected, with the
    controls in their disconnected layout and the socket it had closed; it
    writes nothing. *)
Theorem disconnect_leaves_disconnected g :
  client (disconnect g) = None
  /\ connected (disconnect g) = false
  /\ widgets (disconnect g) = Controls true true false false false
  /\ (forall s, sent (disconnect g) s = sent g s)
  /\ (forall s, client g = Some s -> ~ sendable (net (disconnect g)) s = true).
Proof.
  unfold disconnect. repeat split.
  - intros s.
    change (sent (on_disconnected_ui_update _) s)
      with (sent (set_net (match client g with
                           | Some s0 => net_close s0 (net g)
                           | None => net g
                           end) g) s).
    destruct (client g); [apply net_close_sent|reflexivity].
  - intros s Hc. cbn [net on_disconnected_ui_update set_widgets add_message
                      set_link set_net]. rewrite Hc.
    change (net_close s (net g)) with (mark_closed s (net g)).
    rewrite sendable_closed. discriminate.
Qed.

Lemma in_step_same g g' :
  widgets g' = widgets g -> connected g' = connected g -> client g' = client g ->
  in_step g -> in_step g'.
Proof. unfold in_step. intros -> -> ->. auto. Qed.

Lemma in_step_off g :
  widgets g = Controls true true false false false ->
  connected g = false -> client g = None -> in_step g.
Proof.
  unfold in_step. intros -> -> ->. split; [reflexivity|].
  split; [discriminate|done].
Qed.

Lemma in_step_on g s :
  widgets g = Controls false false true true true ->
  connected g = true -> client g = Some s -> in_step g.
Proof.
  unfold in_step. intros -> -> ->. split; [reflexivity|].
  split; [discriminate|reflexivity].
Qed.

(** X24: the controls always show what [connected] says, and
    [connected] holds exactly when [client] is set: every callback of the
    window, and the receive thread, keeps this. *)
Theorem callbacks_keep_in_step s d answer script g :
  in_step g ->
  in_step (connect s d g)
  /\ in_step (send_message g)
  /\ in_step (disconnect g)
  /\ in_step (on_closing answer g)
  /\ in_step (snd (listen_for_messages_from_server s script g)).
Proof.
  intros Hg.
  assert (Hsame : forall g', widgets g' = widgets g ->
            connected g' = connected g -> client g' = client g -> in_step g').
  { intros g' H1 H2 H3. exact (in_step_same g g' H1 H2 H3 Hg). }
  split; [|split; [|split; [|split]]].
  - unfold connect.
    destruct (connected g && bool_decide (client g <> None));
      [apply Hsame; reflexivity|].
    destruct (strip (username_textbox g)); [apply Hsame; reflexivity|].
    destruct d as [|up]; [apply Hsame; reflexivity|]. cbv zeta.
    destruct (send_text s _ _); [|apply Hsame; reflexivity].
    apply (in_step_on _ s); reflexivity.
  - unfold send_message.
    destruct (connected g) eqn:Hc; [|apply Hsame; [reflexivity|auto|reflexivity]].
    destruct (client g) as [c|] eqn:Hcl;
      [|apply Hsame; [reflexivity|auto|auto]].
    destruct (strip (message_textbox g)); [apply Hsame; auto|].
    destruct (send_text c _ (net g)).
    + apply Hsame; auto.
    + apply in_step_off; reflexivity.
  - apply in_step_off; reflexivity.
  - unfold on_closing. destruct (connected g) eqn:Hc.
    + destruct answer; [apply in_step_off; reflexivity|].
      apply Hsame; auto.
    + apply Hsame; auto.
  - unfold listen_for_messages_from_server.
    destruct (receive_loop_keeps s script g) as (H1 & H2 & H3 & _ & Hr & _).
    destruct (receive_loop s script g) as [r g']. cbn [fst snd] in *.
    destruct Hr as [-> | ->]; cbn [snd].
    + apply in_step_off; reflexivity.
    + apply Hsame; assumption.
Qed.

Lemma callbacks_keep_in_step_witness :
  in_step (connect 1%nat (Established true) (type_username (py " alice ") start))
  /\ in_step (send_message (type_username (py " alice ") start))
  /\ in_step (disconnect (type_username (py " alice ") start))
  /\ in_step (on_closing true (type_username (py " alice ") start))
  /\ in_step (snd (listen_for_messages_from_server 1%nat [Chunk []]
                     (type_username (py " alice ") start))).
Proof.
  apply (callbacks_keep_in_step 1%nat (Established true) true [Chunk []]
           (type_username (py " alice ") start)).
  split; [reflexivity|]. cbn. split; [discriminate|done].
Defined.

(** ** Further properties: client and server together *)







(** ** Further properties: the registry's sockets stay distinct *)

Lemma In_map_filter (f : entry -> bool) l s :
  In s (map esock (List.filter f l)) -> In s (map esock l).
Proof.
  intros H. apply in_map_iff in H as (e & <- & He).
  apply List.filter_In in He as [He _]. apply in_map. exact He.
Qed.

Lemma NoDup_map_filter (f : entry -> bool) l :
  List.NoDup (map esock l) -> List.NoDup (map esock (List.filter f l)).
Proof.
  induction l as [|a l IH]; [intros; constructor|]. cbn [map List.filter].
  intros H. inversion H as [|? ? Hna Hnd]; subst.
  destruct (f a); [|auto]. cbn [map]. constructor; [|auto].
  intros Hin. apply Hna. exact (In_map_filter f l _ Hin).
Qed.

Lemma In_map_drop_first l x s :
  In s (map esock (drop_first l x)) -> In s (map esock l).
Proof.
  intros H. apply in_map_iff in H as (e & <- & He).
  apply in_map. exact (In_drop_first _ _ _ He).
Qed.

Lemma NoDup_map_drop_first l x :
  List.NoDup (map esock l) -> List.NoDup (map esock (drop_first l x)).
Proof.
  induction l as [|a l IH]; [intros; constructor|].
  rewrite drop_first_cons. cbn [map]. intros H.
  inversion H as [|? ? Hna Hnd]; subst.
  destruct (decide (a = x)); [exact Hnd|]. cbn [map]. constructor; [|auto].
  intros Hin. apply Hna. exact (In_map_drop_first _ _ _ Hin).
Qed.

Lemma NoDup_broadcast_state message st :
  List.NoDup (map esock (active_clients st)) ->
  List.NoDup (map esock (active_clients (broadcast_state message st))).
Proof. apply NoDup_map_filter. Qed.

Lemma NoDup_without s l :
  List.NoDup (map esock l) -> List.NoDup (map esock (without s l)).
Proof.
  unfold without. destruct (find_by_sock s l); [apply NoDup_map_drop_first|auto].
Qed.

Lemma NoDup_remove_client s name st :
  List.NoDup (map esock (active_clients st)) ->
  List.NoDup (map esock (active_clients (snd (remove_client s name st)))).
Proof.
  intros H. rewrite remove_client_spec. cbn [snd].
  apply NoDup_broadcast_state. cbn [active_clients]. apply NoDup_without, H.
Qed.

Lemma NoDup_listen_loop s name script : forall st,
  List.NoDup (map esock (active_clients st)) ->
  List.NoDup (map esock (active_clients (snd (listen_loop s name script st)))).
Proof.
  induction script as [|a rest IH]; intros st H; [exact H|].
  rewrite listen_loop_cons. destruct (is_open st s); [|exact H].
  destruct a as [[|b data]| |]; try exact H.
  - apply IH, NoDup_broadcast_state, H.
  - destruct (timeout <$> (sockets st !! s)) as [[|]|]; exact H.
Qed.

Lemma NoDup_console_loop lines : forall st,
  List.NoDup (map esock (active_clients st)) ->
  List.NoDup (map esock (active_clients (snd (console_loop lines st)))).
Proof.
  induction lines as [|msg rest IH]; intros st H; [exact H|].
  cbn [console_loop]. unfold bind. rewrite console_line_spec.
  apply IH. destruct (blank msg); [exact H|]. apply NoDup_broadcast_state, H.
Qed.

(** X27: no two entries of the registry hold the same socket, and the
    server keeps it so: a broadcast, the removal of a client, a whole
    listener, the console loop and the shutdown block never break this,
    and a handshake does not either when the socket it is given is in no
    entry yet (the accept loop gives each handler a new socket). *)
Theorem registry_sockets_stay_distinct st :
  List.NoDup (map esock (active_clients st)) ->
  (forall message,
     List.NoDup (map esock (active_clients
                              (snd (send_messages_to_all message st)))))
  /\ (forall s name,
        List.NoDup (map esock (active_clients (snd (remove_client s name st)))))
  /\ (forall s name script,
        List.NoDup (map esock (active_clients
                                 (snd (listen_for_messages s name script st)))))
  /\ (forall lines,
        List.NoDup (map esock (active_clients
                                 (snd (server_send_messages lines st)))))
  /\ List.NoDup (map esock (active_clients (snd (main_shutdown st))))
  /\ (forall s first,
        ~ In s (map esock (active_clients st)) ->
        List.NoDup (map esock (active_clients
                                 (snd (client_handler s first st))))).
Proof.
  intros H. split; [|split; [|split; [|split; [|split]]]].
  - intros message. rewrite send_messages_to_all_spec.
    apply NoDup_broadcast_state, H.
  - intros s name. apply NoDup_remove_client, H.
  - intros s name script. unfold listen_for_messages, try_finally, try_except.
    pose proof (NoDup_listen_loop s name script st H) as Hl.
    destruct (listen_loop_result s name script st) as [Hr|Hr];
      destruct (listen_loop s name script st) as [r st1];
      cbn [fst snd] in *; subst r.
    + pose proof (NoDup_remove_client s name st1 Hl) as Hrm.
      pose proof (remove_client_spec s name st1) as Hs.
      destruct (remove_client s name st1) as [r st2]. cbn [snd] in Hrm.
      injection Hs as -> _. exact Hrm.
    + exact Hl.
  - intros lines. unfold server_send_messages, try_except.
    pose proof (NoDup_console_loop lines st H) as Hl.
    destruct (console_loop_spec lines st) as (st' & t & Heq & _).
    rewrite Heq in *. exact Hl.
  - rewrite main_shutdown_spec. constructor.
  - intros s first Hs.
    destruct (client_handler_cases s first st)
      as [(m' & Heq)|(raw & text & -> & Hd & Hn & Ho)].
    + rewrite Heq. exact H.
    + rewrite (client_handler_ok s raw text st Ho Hd Hn). cbv zeta. cbn [snd].
      apply NoDup_broadcast_state. cbn [active_clients].
      rewrite map_app. apply List.NoDup_app; [exact H| |].
      * repeat constructor. intros [].
      * intros x Hx [<-|[]]. exact (Hs Hx).
Qed.

Lemma registry_sockets_stay_distinct_witness :
  List.NoDup (map esock (active_clients
                           (snd (send_messages_to_all (py "alice~hello")
                                   lobby_bob_down)))).
Proof.
  apply (registry_sockets_stay_distinct lobby_bob_down).
  simpl. repeat constructor; simpl; intuition discriminate.
Defined.
